(** * Float / fixed-point sample conversions of [inc/intfloatconversions.h]

    A shallow embedding of the [LTC] conversion templates.  The two template
    parameters of the source are kept as parameters of the model:

    - [F], the floating type, ranges over IEEE 754 binary32 ([float]) and
      binary64 ([double]); values are [spec_float]s and every arithmetic
      operation is the correctly rounded one of [SpecFloat], applied once
      per source operator (no contraction, no excess precision);
    - [I], the integer type, is a descriptor made of a signedness flag and
      a width; values are [Z]s inside the range of the descriptor.

    Conversions from a floating value to an integer type have no defined
    result when the truncated value does not fit the destination; signed
    [int] addition has none when it overflows.  Both are modelled in the
    error monad [option], [None] standing for "no defined result"; an
    exception that leaves a function ([std::length_error] from [reserve],
    [std::out_of_range] from [at]) is modelled the same way.  The type
    [int] is taken to be 32 bits wide and [std::size_t] 64 bits wide. *)

From Stdlib Require Import ZArith List Bool Lia.
From Stdlib Require Import Floats.SpecFloat.
Import ListNotations.
Local Open Scope Z_scope.

(** ** The error monad *)

Definition bind {A B : Type} (c : option A) (k : A -> option B) : option B :=
  match c with
  | Some a => k a
  | None => None
  end.

Declare Scope ub_scope.
Delimit Scope ub_scope with ub.
Notation "x <- c ;; k" := (bind c (fun x => k))
  (at level 61, c at next level, right associativity) : ub_scope.
Local Open Scope ub_scope.

(** ** Integer types *)

Record IntType : Type := MkIntType {
  is_unsigned : bool;
  width : Z
}.

Definition uint8_t : IntType := MkIntType true 8.
Definition uint16_t : IntType := MkIntType true 16.
Definition uint32_t : IntType := MkIntType true 32.
Definition uint64_t : IntType := MkIntType true 64.
Definition int16_t : IntType := MkIntType false 16.
Definition int32_t : IntType := MkIntType false 32.

(** [int] of the source. *)
Definition int : IntType := int32_t.

(** The integer types the header is instantiated at. *)
Definition supported_int : list IntType := [uint8_t; int16_t; int32_t].

(** [std::numeric_limits<I>::max()] and [::min()]. *)
Definition numeric_limits_max (I : IntType) : Z :=
  if is_unsigned I then 2 ^ width I - 1 else 2 ^ (width I - 1) - 1.

Definition numeric_limits_min (I : IntType) : Z :=
  if is_unsigned I then 0 else - 2 ^ (width I - 1).

Definition in_range (I : IntType) (z : Z) : bool :=
  (numeric_limits_min I <=? z) && (z <=? numeric_limits_max I).

(** Integer-to-integer [static_cast<I>]: reduction modulo [2 ^ width]. *)
Definition wrap (I : IntType) (z : Z) : Z :=
  if is_unsigned I then z mod 2 ^ width I
  else (z + 2 ^ (width I - 1)) mod 2 ^ width I - 2 ^ (width I - 1).

(** Checked arithmetic of [int]. *)
Definition int_checked (z : Z) : option Z :=
  if in_range int z then Some z else None.

(** ** Floating types *)

Inductive FloatType : Type := float | double.

Definition prec (F : FloatType) : Z :=
  match F with float => 24 | double => 53 end.

Definition emax (F : FloatType) : Z :=
  match F with float => 128 | double => 1024 end.

Section FloatOps.
Variable F : FloatType.

Definition fadd : spec_float -> spec_float -> spec_float := SFadd (prec F) (emax F).
Definition fsub : spec_float -> spec_float -> spec_float := SFsub (prec F) (emax F).
Definition fmul : spec_float -> spec_float -> spec_float := SFmul (prec F) (emax F).
Definition fdiv : spec_float -> spec_float -> spec_float := SFdiv (prec F) (emax F).

(** [static_cast<F>] of an integer: round to nearest, ties to even. *)
Definition of_Z (z : Z) : spec_float := binary_normalize (prec F) (emax F) z 0 false.

(** The literal [m * 2 ^ e] (every literal of the header is a dyadic
    number representable in both formats). *)
Definition literal (m e : Z) : spec_float := binary_normalize (prec F) (emax F) m e false.
End FloatOps.

(** Truncation toward zero of a finite value. *)
Definition trunc (x : spec_float) : option Z :=
  match x with
  | S754_zero _ => Some 0
  | S754_finite s m e =>
      let a := if 0 <=? e then Z.pos m * 2 ^ e else Z.pos m / 2 ^ (- e) in
      Some (if s then - a else a)
  | S754_infinity _ | S754_nan => None
  end.

(** Floating-to-integer [static_cast<I>]: truncate, then the result must be
    representable in [I]. *)
Definition static_cast_int (I : IntType) (x : spec_float) : option Z :=
  t <- trunc x ;;
  if in_range I t then Some t else None.

(** ** The conversion templates *)

Section Literals.
Variable F : FloatType.

Definition zero : spec_float := literal F 0 0.
Definition half : spec_float := literal F 1 (-1).
Definition one : spec_float := literal F 1 0.
Definition minus_one : spec_float := literal F (-1) 0.
End Literals.

(** [get_zero<T>()]: the quotient is the truncating one of C++. *)
Definition get_zero (T : IntType) : Z :=
  if is_unsigned T then wrap T (Z.quot (numeric_limits_max T) 2 + 1)
  else 0.

Section Rounding.
Variable T : FloatType.

(** [clip_float<T>(T value)]. *)
Definition clip_float (value : spec_float) : spec_float :=
  if SFltb (one T) value then one T
  else if SFltb value (minus_one T) then minus_one T
  else value.

(** [round_float<T>(T value)].  The right operand of [&&] is evaluated
    only when [remainder == 0.5], as in the source. *)
Definition round_float (value : spec_float) : option spec_float :=
  truncated <- static_cast_int int value ;;
  let remainder := fsub T value (of_Z T truncated) in
  roundValue <-
    (if SFltb (half T) remainder then Some 1
     else if SFeqb remainder (half T) then
       next <- static_cast_int int (fadd T value (of_Z T 1)) ;;
       Some (if Z.rem next 2 =? 0 then 1 else 0)
     else Some 0) ;;
  rounded <- int_checked
    (truncated + (if SFltb value (zero T) then - roundValue else roundValue)) ;;
  Some (of_Z T rounded).
End Rounding.

Section FloatToInt.
Variable F : FloatType.
Variable I : IntType.

(** [float_to_int<F, I>(F value)]. *)
Definition float_to_int (value : spec_float) : option Z :=
  if SFeqb value (zero F) then Some (get_zero I)
  else if is_unsigned I then
    if SFltb value (zero F) then
      r <- round_float F
             (fadd F (of_Z F (get_zero I))
                     (fmul F value (of_Z F (get_zero I)))) ;;
      static_cast_int I r
    else
      static_cast_int I
        (fadd F (fmul F value (of_Z F (get_zero I - 1)))
                (of_Z F (get_zero I)))
  else if SFltb value (zero F) then
    r <- round_float F
           (fmul F (SFopp value) (of_Z F (numeric_limits_min I))) ;;
    static_cast_int I r
  else
    r <- round_float F (fmul F value (of_Z F (numeric_limits_max I))) ;;
    static_cast_int I r.
End FloatToInt.

Section IntToFloat.
Variable I : IntType.
Variable F : FloatType.

(** [int_to_float<I, F>(I value)]. *)
Definition int_to_float (value : Z) : spec_float :=
  if value =? get_zero I then zero F
  else if is_unsigned I then
    if value <? get_zero I then
      fdiv F (of_Z F value) (of_Z F (get_zero I - 1))
    else
      fdiv F (of_Z F (value - get_zero I)) (of_Z F (get_zero I))
  else if value <? 0 then
    fmul F (of_Z F value) (of_Z F (numeric_limits_max I))
  else
    fmul F (of_Z F value) (of_Z F (numeric_limits_min I)).
End IntToFloat.

(** ** The vector-returning bulk forms *)

(** [std::size_t], taken to be 64 bits wide. *)
Definition size_t : IntType := uint64_t.

(** [max_size()] of a [std::vector]: [PTRDIFF_MAX] divided by the size of
    an element, hence at most [PTRDIFF_MAX = 2 ^ 63 - 1], which is the value
    taken here.  The requests of this header come from an [int]: they are
    at most [INT_MAX], below every such bound, or at least
    [2 ^ 64 - 2 ^ 31], above every such bound. *)
Definition max_size : Z := 2 ^ 63 - 1.

Section Loops.
Context {A B : Type}.

(** A counted loop [for (int i(0); i < length; ++i) body]: the body runs
    [length] times (not at all when [length <= 0]) on [i = 0, 1, ...]. *)
Fixpoint for_loop {St : Type} (body : Z -> St -> option St)
    (iterations : nat) (i : Z) (s : St) : option St :=
  match iterations with
  | O => Some s
  | S n => s' <- body i s ;; for_loop body n (i + 1) s'
  end.

(** [values.at(i)]. *)
Definition at_ (values : list A) (i : Z) : option A :=
  if i <? 0 then None else nth_error values (Z.to_nat i).

(** [static_cast<int>(values.size())]. *)
Definition size_as_int (values : list A) : Z :=
  wrap int (Z.of_nat (List.length values)).

(** The loop body [converted.emplace_back(scalar(values.at(i)))]. *)
Definition emplace_converted (scalar : A -> option B) (values : list A)
    (i : Z) (converted : list B) : option (list B) :=
  v <- at_ values i ;;
  c <- scalar v ;;
  Some (converted ++ [c]).

(** [converted.reserve(length)]: the [int] argument is converted to
    [size_type]; a request above [max_size()] throws [std::length_error]
    and the function returns nothing.  A request that is not above it
    allocates and changes no element. *)
Definition reserve (length : Z) : option unit :=
  if wrap size_t length <=? max_size then Some tt else None.

(** The common shape of the two vector-returning overloads: reserve, then
    [emplace_back] the scalar conversion of [values.at(i)] for each [i]. *)
Definition convert_vector (scalar : A -> option B) (values : list A)
    : option (list B) :=
  let length := size_as_int values in
  reserved <- reserve length ;;
  for_loop (emplace_converted scalar values) (Z.to_nat length) 0 [].
End Loops.

(** [float_to_int<F, I>(std::vector<F> values)]. *)
Definition float_to_int_vector (F : FloatType) (I : IntType)
    (values : list spec_float) : option (list Z) :=
  convert_vector (float_to_int F I) values.

(** [int_to_float<I, F>(std::vector<I> values)]. *)
Definition int_to_float_vector (I : IntType) (F : FloatType)
    (values : list Z) : option (list spec_float) :=
  convert_vector (fun v => Some (int_to_float I F v)) values.

(** The element-wise conversion of a sequence, as the specification words
    it: the scalar conversion applied to each element independently, in
    order; the whole has a result when every element has one. *)
Fixpoint elementwise {A B : Type} (scalar : A -> option B) (values : list A)
    : option (list B) :=
  match values with
  | [] => Some []
  | v :: rest =>
      c <- scalar v ;;
      cs <- elementwise scalar rest ;;
      Some (c :: cs)
  end.

(** ** The in-place bulk forms *)

Section InPlace.
Context {A B : Type}.

(** Reading [buffer[i]] through a pointer or [operator[]]: there is no
    bounds check, and no defined result outside the buffer. *)
Definition subscript (buffer : list A) (i : Z) : option A :=
  if i <? 0 then None else nth_error buffer (Z.to_nat i).

(** Writing [buffer[i] = c], under the same condition. *)
Definition assign (buffer : list B) (i : Z) (c : B) : option (list B) :=
  if (0 <=? i) && (i <? Z.of_nat (length buffer)) then
    Some (firstn (Z.to_nat i) buffer ++ c :: skipn (S (Z.to_nat i)) buffer)
  else None.

(** The pointer form, which stores the scalar conversion of [*value] into
    [*converted], called on [converted + i] and [value + i]. *)
Definition convert_pointer (scalar : A -> option B) (values : list A)
    (i : Z) (converted : list B) : option (list B) :=
  v <- subscript values i ;;
  c <- scalar v ;;
  assign converted i c.

(** The array form, and the vector form that takes a length:
    [for (int i(0); i < length; ++i)] over the pointer form. *)
Definition convert_array (scalar : A -> option B) (converted : list B)
    (values : list A) (length : Z) : option (list B) :=
  for_loop (convert_pointer scalar values) (Z.to_nat length) 0 converted.

(** The vector form without a length: the length is
    [static_cast<int>(values->size())]. *)
Definition convert_in_place (scalar : A -> option B) (converted : list B)
    (values : list A) : option (list B) :=
  convert_array scalar converted values (size_as_int values).
End InPlace.

(** [float_to_int<F, I>(I* converted, F* value, int length)] and
    [float_to_int<F, I>(std::vector<I>*, std::vector<F>*, int length)]. *)
Definition float_to_int_array (F : FloatType) (I : IntType)
    (converted : list Z) (values : list spec_float) (length : Z)
    : option (list Z) :=
  convert_array (float_to_int F I) converted values length.

(** [float_to_int<F, I>(std::vector<I>* converted, std::vector<F>* values)]. *)
Definition float_to_int_in_place (F : FloatType) (I : IntType)
    (converted : list Z) (values : list spec_float) : option (list Z) :=
  convert_in_place (float_to_int F I) converted values.

(** [int_to_float<I, F>(F* converted, I* value, int length)] and
    [int_to_float<I, F>(std::vector<F>*, std::vector<I>*, int length)]. *)
Definition int_to_float_array (I : IntType) (F : FloatType)
    (converted : list spec_float) (values : list Z) (length : Z)
    : option (list spec_float) :=
  convert_array (fun v => Some (int_to_float I F v)) converted values length.

(** [int_to_float<I, F>(std::vector<F>* converted, std::vector<I>* values)]. *)
Definition int_to_float_in_place (I : IntType) (F : FloatType)
    (converted : list spec_float) (values : list Z)
    : option (list spec_float) :=
  convert_in_place (fun v => Some (int_to_float I F v)) converted values.

(** [clip_float<T>(T* value)], called on [buffer + i]. *)
Definition clip_float_pointer (T : FloatType) (buffer : list spec_float)
    (i : Z) : option (list spec_float) :=
  v <- subscript buffer i ;;
  assign buffer i (clip_float T v).

(** ** Checks that compute *)

(** Every code of an integer type, in increasing order. *)
Definition all_codes (I : IntType) : list Z :=
  map (fun k => numeric_limits_min I + Z.of_nat k)
      (seq 0 (Z.to_nat (numeric_limits_max I - numeric_limits_min I + 1))).

(** [to_integer(to_float(i))]. *)
Definition int_round_trip (I : IntType) (F : FloatType) (i : Z) : option Z :=
  float_to_int F I (int_to_float I F i).

Definition survives (I : IntType) (F : FloatType) (i : Z) : bool :=
  match int_round_trip I F i with
  | Some j => j =? i
  | None => false
  end.

(** No code but the zero point is returned by the integer round trip. *)
Definition only_zero_point_survives (I : IntType) (F : FloatType) : bool :=
  forallb (fun i => implb (survives I F i) (i =? get_zero I)) (all_codes I).

(** Code 0 of an unsigned type converts to +0.0, as the zero point does,
    and is the code of -1.0. *)
Definition code_zero_is_silence (I : IntType) (F : FloatType) : bool :=
  match int_to_float I F 0, int_to_float I F (get_zero I),
        fdiv F (of_Z F 0) (of_Z F (get_zero I - 1)),
        float_to_int F I (minus_one F) with
  | S754_zero false, S754_zero false, S754_zero false, Some 0 => true
  | _, _, _, _ => false
  end.

(** The widths 2, 3, ..., 64. *)
Definition widths : list Z := map Z.of_nat (seq 2 63).

(** The multiples of [2 ^ -6] from -1.0 to 1.0, in increasing order. *)
Definition grid (F : FloatType) : list spec_float :=
  map (fun k => literal F (Z.of_nat k - 64) (-6)) (seq 0 129).

(** Every element has a result and the results never decrease. *)
Fixpoint nondecreasing (results : list (option Z)) : bool :=
  match results with
  | [] => true
  | None :: _ => false
  | Some a :: rest =>
      match rest with
      | Some b :: _ => (a <=? b) && nondecreasing rest
      | None :: _ => false
      | [] => true
      end
  end.

(** ** Notions used in the statements *)

(** [SpecFloat] is written with the integer operations of the core
    library; they are the ones of [ZArith] under another name. *)
Ltac norm_Z :=
  change IntDef.Z.add with Z.add in *;
  change IntDef.Z.sub with Z.sub in *;
  change IntDef.Z.mul with Z.mul in *;
  change IntDef.Z.opp with Z.opp in *;
  change IntDef.Z.leb with Z.leb in *;
  change IntDef.Z.eqb with Z.eqb in *;
  change IntDef.Z.max with Z.max in *;
  change IntDef.Z.min with Z.min in *;
  change IntDef.Z.compare with Z.compare in *.

(** [x] is a NaN or carries the sign bit [s]. *)
Definition has_sign (s : bool) (x : spec_float) : Prop :=
  match x with
  | S754_nan => True
  | S754_zero s' | S754_infinity s' | S754_finite s' _ _ => s' = s
  end.

(** The magnitude of the truncation of a finite value. *)
Definition magnitude (m : positive) (e : Z) : Z :=
  if 0 <=? e then Z.pos m * 2 ^ e else Z.pos m / 2 ^ (- e).

(** The integer nearest to [m * 2 ^ e], the even one of the two when
    [m * 2 ^ e] lies half way. *)
Definition round_half_even (m : positive) (e : Z) : Z :=
  let t := magnitude m e in
  if 0 <=? e then t
  else
    let r := Z.pos m mod 2 ^ (- e) in
    if 2 ^ (- e) <? 2 * r then t + 1
    else if 2 * r =? 2 ^ (- e) then (if Z.even t then t else t + 1)
    else t.

(** The instantiations in which the floating type represents the limits
    of the integer type exactly. *)
Definition exact_instantiations : list (FloatType * IntType) :=
  [(float, uint8_t); (double, uint8_t); (float, int16_t); (double, int16_t);
   (double, int32_t)].

(** The code just below the zero point of an unsigned type converts to
    +1.0. *)
Definition code_below_zero_is_one (I : IntType) (F : FloatType) : bool :=
  match SFcompare (int_to_float I F (get_zero I - 1)) (one F),
        int_to_float I F (get_zero I) with
  | Some Eq, S754_zero false => true
  | _, _ => false
  end.

(** ** Basic facts *)

Lemma zero_is_positive_zero (F : FloatType) : zero F = S754_zero false.
Proof. reflexivity. Qed.

Lemma int_max_value : numeric_limits_max int = 2147483647.
Proof. reflexivity. Qed.

Lemma bind_ret {A : Type} (c : option A) : bind c (fun a => Some a) = c.
Proof. destruct c; reflexivity. Qed.

Lemma get_zero_signed (I : IntType) : is_unsigned I = false -> get_zero I = 0.
Proof. unfold get_zero. intros ->. reflexivity. Qed.

Lemma get_zero_supported :
  map get_zero supported_int = [128; 0; 0].
Proof. reflexivity. Qed.

Lemma get_zero_unsigned_widths :
  map get_zero [uint8_t; uint16_t; uint32_t; uint64_t]
  = [128; 32768; 2147483648; 9223372036854775808].
Proof. reflexivity. Qed.

(** [clip_float] on values above, below and inside the domain. *)
Lemma clip_float_samples (T : FloatType) :
  clip_float T (literal T 2 0) = one T
  /\ clip_float T (literal T (-2) 0) = minus_one T
  /\ clip_float T (literal T 1 (-2)) = literal T 1 (-2)
  /\ clip_float T (one T) = one T
  /\ clip_float T (minus_one T) = minus_one T.
Proof. destruct T; vm_compute; repeat split. Qed.

(** ** Silence *)

Lemma float_to_int_signed_zero (F : FloatType) (I : IntType) (s : bool) :
  float_to_int F I (S754_zero s) = Some (get_zero I).
Proof. unfold float_to_int. rewrite zero_is_positive_zero. reflexivity. Qed.

Lemma float_to_int_zero (F : FloatType) (I : IntType) :
  float_to_int F I (zero F) = Some (get_zero I).
Proof. rewrite zero_is_positive_zero. apply float_to_int_signed_zero. Qed.

Lemma int_to_float_zero_point (I : IntType) (F : FloatType) :
  int_to_float I F (get_zero I) = zero F.
Proof. unfold int_to_float. rewrite Z.eqb_refl. reflexivity. Qed.

(** C2: for every floating type and every integer type, [float_to_int] sends
    0.0 (of either sign) to the zero point [get_zero], and [int_to_float]
    sends the zero point to exactly +0.0. *)
Theorem silence_round_trip (F : FloatType) (I : IntType) :
  (forall s : bool, float_to_int F I (S754_zero s) = Some (get_zero I))
  /\ float_to_int F I (zero F) = Some (get_zero I)
  /\ int_to_float I F (get_zero I) = zero F
  /\ zero F = S754_zero false.
Proof.
  split; [| split; [| split]].
  - apply float_to_int_signed_zero.
  - apply float_to_int_zero.
  - apply int_to_float_zero_point.
  - apply zero_is_positive_zero.
Qed.

(** ** Bulk conversion *)

Section Bulk.
Context {A B : Type}.
Variable scalar : A -> option B.

Lemma at_app_length (done : list A) (v : A) (rest : list A) :
  at_ (done ++ v :: rest) (Z.of_nat (length done)) = Some v.
Proof.
  unfold at_.
  destruct (Z.ltb_spec (Z.of_nat (length done)) 0) as [Hneg | _]; [lia |].
  rewrite Nat2Z.id, nth_error_app2, Nat.sub_diag by lia. reflexivity.
Qed.

(** Loop invariant: after [length done] iterations the accumulator holds
    the conversions of [done]; the remaining iterations append those of
    [rest]. *)
Lemma for_loop_elementwise (rest done : list A) (converted : list B) :
  for_loop (emplace_converted scalar (done ++ rest)) (length rest)
           (Z.of_nat (length done)) converted
  = (cs <- elementwise scalar rest ;; Some (converted ++ cs)).
Proof.
  revert done converted.
  induction rest as [| v rest IH]; intros done converted; simpl.
  - rewrite app_nil_r. reflexivity.
  - unfold emplace_converted at 1.
    rewrite at_app_length. simpl.
    destruct (scalar v) as [c |]; simpl; [| reflexivity].
    replace (done ++ v :: rest) with ((done ++ [v]) ++ rest)
      by (rewrite <- app_assoc; reflexivity).
    replace (Z.of_nat (length done) + 1) with (Z.of_nat (length (done ++ [v])))
      by (rewrite length_app; simpl; lia).
    rewrite IH.
    destruct (elementwise scalar rest) as [cs |]; simpl; [| reflexivity].
    rewrite <- app_assoc. reflexivity.
Qed.

Lemma size_as_int_small (values : list A) :
  Z.of_nat (length values) <= numeric_limits_max int ->
  size_as_int values = Z.of_nat (length values).
Proof.
  rewrite int_max_value. intros Hlen. unfold size_as_int, wrap. simpl.
  change (2 ^ (32 - 1)) with 2147483648. change (2 ^ 32) with 4294967296.
  rewrite Z.mod_small by lia. lia.
Qed.

Lemma reserve_small (length : Z) :
  0 <= length <= numeric_limits_max int -> reserve length = Some tt.
Proof.
  rewrite int_max_value. intros Hlen. unfold reserve, wrap. simpl is_unsigned.
  cbv iota. change (2 ^ width size_t) with 18446744073709551616.
  rewrite Z.mod_small by lia.
  change max_size with 9223372036854775807.
  destruct (Z.leb_spec length 9223372036854775807); [reflexivity | lia].
Qed.

Lemma convert_vector_elementwise (values : list A) :
  Z.of_nat (length values) <= numeric_limits_max int ->
  convert_vector scalar values = elementwise scalar values.
Proof.
  intros Hlen. unfold convert_vector.
  rewrite (size_as_int_small values Hlen).
  rewrite reserve_small by lia. cbn [bind].
  rewrite Nat2Z.id.
  change values with ([] ++ values) at 1.
  change 0 with (Z.of_nat (length (@nil A))).
  rewrite for_loop_elementwise. simpl. apply bind_ret.
Qed.

Lemma elementwise_Forall2 (values : list A) (out : list B) :
  elementwise scalar values = Some out
  <-> Forall2 (fun v c => scalar v = Some c) values out.
Proof.
  revert out. induction values as [| v rest IH]; intros out; simpl.
  - split.
    + intros [= <-]. constructor.
    + intros H. inversion H. reflexivity.
  - split.
    + destruct (scalar v) as [c |] eqn:Hc; simpl; [| discriminate].
      destruct (elementwise scalar rest) as [cs |] eqn:Hcs; simpl; [| discriminate].
      intros [= <-]. constructor; [exact Hc | apply IH; reflexivity].
    + intros H. inversion H as [| v' c rest' cs Hc Hrest]; subst.
      rewrite Hc. simpl.
      apply IH in Hrest. rewrite Hrest. reflexivity.
Qed.
End Bulk.

Lemma some_length {A : Type} (l1 l2 : list A) :
  Some l1 = Some l2 -> length l1 = length l2.
Proof. intros [= ->]. reflexivity. Qed.

Lemma elementwise_repeat {A B : Type} (scalar : A -> option B) (v : A) (c : B)
    (n : nat) :
  scalar v = Some c ->
  elementwise scalar (repeat v n) = Some (repeat c n).
Proof.
  intros Hc. induction n as [| n IH]; simpl; [reflexivity |].
  rewrite Hc, IH. reflexivity.
Qed.

(** The length is the size narrowed to [int]: when the size is [2 ^ 31]
    the length is [- 2 ^ 31], which [reserve] receives as
    [2 ^ 64 - 2 ^ 31] and refuses with [std::length_error]. *)
Lemma convert_vector_overflow {A B : Type} (scalar : A -> option B)
    (values : list A) :
  Z.of_nat (length values) = 2147483648 ->
  size_as_int values = -2147483648
  /\ reserve (size_as_int values) = None
  /\ convert_vector scalar values = None.
Proof.
  intros Hlen.
  assert (Hsize : size_as_int values = -2147483648)
    by (unfold size_as_int; rewrite Hlen; reflexivity).
  unfold convert_vector. rewrite Hsize. repeat split.
Qed.

(** When the size is [2 ^ 32] the length is 0: nothing is reserved, the
    loop body never runs and the result is empty. *)
Lemma convert_vector_wraps_to_zero {A B : Type} (scalar : A -> option B)
    (values : list A) :
  Z.of_nat (length values) = 4294967296 ->
  size_as_int values = 0 /\ convert_vector scalar values = Some [].
Proof.
  intros Hlen.
  assert (Hsize : size_as_int values = 0)
    by (unfold size_as_int; rewrite Hlen; reflexivity).
  unfold convert_vector. rewrite Hsize. split; reflexivity.
Qed.

Lemma elementwise_total {A B : Type} (f : A -> B) (values : list A) :
  elementwise (fun v => Some (f v)) values = Some (map f values).
Proof.
  induction values as [| v rest IH]; simpl; [reflexivity |].
  rewrite IH. reflexivity.
Qed.

(** The lengths 0 and 1. *)
Lemma convert_vector_nil {A B : Type} (scalar : A -> option B) :
  convert_vector scalar [] = Some [].
Proof. reflexivity. Qed.

Lemma convert_vector_singleton {A B : Type} (scalar : A -> option B) (v : A) :
  convert_vector scalar [v] = (c <- scalar v ;; Some [c]).
Proof.
  unfold convert_vector. change (size_as_int [v]) with 1.
  change (reserve 1) with (Some tt). simpl.
  unfold emplace_converted, at_. simpl. destruct (scalar v); reflexivity.
Qed.

(** C9, amended: on a vector whose size fits [int] (at most [2 ^ 31 - 1]
    elements), the vector-returning form of [float_to_int] is the
    element-wise map of the scalar [float_to_int] (its i-th output is the
    scalar conversion of the i-th input), and the vector-returning form of
    [int_to_float] is the map of the scalar [int_to_float]. *)
Theorem bulk_is_elementwise (F : FloatType) (I : IntType)
    (floats : list spec_float) (ints : list Z) :
  Z.of_nat (length floats) <= numeric_limits_max int ->
  Z.of_nat (length ints) <= numeric_limits_max int ->
  float_to_int_vector F I floats = elementwise (float_to_int F I) floats
  /\ (forall out, float_to_int_vector F I floats = Some out
        <-> Forall2 (fun v c => float_to_int F I v = Some c) floats out)
  /\ int_to_float_vector I F ints = Some (map (int_to_float I F) ints).
Proof.
  intros Hf Hi. unfold float_to_int_vector, int_to_float_vector.
  rewrite (convert_vector_elementwise _ floats Hf).
  rewrite (convert_vector_elementwise _ ints Hi).
  split; [reflexivity | split].
  - intros out. apply elementwise_Forall2.
  - apply elementwise_total.
Qed.

Lemma bulk_is_elementwise_witness :
  float_to_int_vector double uint8_t [half double; one double; zero double]
    = elementwise (float_to_int double uint8_t) [half double; one double; zero double]
  /\ (forall out,
        float_to_int_vector double uint8_t [half double; one double; zero double] = Some out
        <-> Forall2 (fun v c => float_to_int double uint8_t v = Some c)
              [half double; one double; zero double] out)
  /\ int_to_float_vector uint8_t double [0; 1] = Some (map (int_to_float uint8_t double) [0; 1]).
Proof.
  apply (bulk_is_elementwise double uint8_t [half double; one double; zero double] [0; 1]);
    vm_compute; discriminate.
Defined.

(** C9 as stated fails on a vector of [2 ^ 31] samples: the size narrowed
    to [int] is [- 2 ^ 31], [reserve] throws [std::length_error] and no
    sequence is returned, while the element-wise map has [2 ^ 31]
    elements. *)
Lemma bulk_huge_vector_no_result :
  let values := repeat (zero double) (Z.to_nat 2147483648) in
  Z.of_nat (length values) = 2147483648
  /\ float_to_int_vector double uint8_t values = None
  /\ elementwise (float_to_int double uint8_t) values
     = Some (repeat 128 (Z.to_nat 2147483648))
  /\ float_to_int_vector double uint8_t values
     <> elementwise (float_to_int double uint8_t) values.
Proof.
  intros values.
  assert (Hlen : Z.of_nat (length values) = 2147483648).
  { unfold values. rewrite repeat_length. apply Z2Nat.id. lia. }
  assert (Hbulk : float_to_int_vector double uint8_t values = None).
  { apply convert_vector_overflow. exact Hlen. }
  assert (Hmap : elementwise (float_to_int double uint8_t) values
                 = Some (repeat 128 (Z.to_nat 2147483648))).
  { apply elementwise_repeat. reflexivity. }
  split; [exact Hlen | split; [exact Hbulk | split; [exact Hmap |]]].
  rewrite Hbulk, Hmap. discriminate.
Qed.

(** On a vector of [2 ^ 32] samples the narrowed size is 0 and the result
    is the empty sequence. *)
Lemma bulk_wrapped_vector_empty :
  let values := repeat (zero double) (Z.to_nat 4294967296) in
  float_to_int_vector double uint8_t values = Some []
  /\ elementwise (float_to_int double uint8_t) values
     = Some (repeat 128 (Z.to_nat 4294967296)).
Proof.
  intros values. split.
  - apply convert_vector_wraps_to_zero.
    unfold values. rewrite repeat_length. apply Z2Nat.id. lia.
  - apply elementwise_repeat. reflexivity.
Qed.

(** ** Unsigned codes below the zero point *)

Lemma code_zero_is_silence_sound (I : IntType) (F : FloatType) :
  code_zero_is_silence I F = true ->
  int_to_float I F 0 = zero F
  /\ int_to_float I F 0 = fdiv F (of_Z F 0) (of_Z F (get_zero I - 1))
  /\ int_to_float I F 0 = int_to_float I F (get_zero I)
  /\ float_to_int F I (minus_one F) = Some 0.
Proof.
  unfold code_zero_is_silence. rewrite zero_is_positive_zero.
  destruct (int_to_float I F 0) as [[|] | | |]; try discriminate.
  destruct (int_to_float I F (get_zero I)) as [[|] | | |]; try discriminate.
  destruct (fdiv F (of_Z F 0) (of_Z F (get_zero I - 1))) as [[|] | | |];
    try discriminate.
  destruct (float_to_int F I (minus_one F)) as [[| p | p] |]; try discriminate.
  intros _. repeat split.
Qed.

Lemma in_widths (w : Z) : 2 <= w <= 64 -> In w widths.
Proof.
  intros Hw. unfold widths. apply in_map_iff.
  exists (Z.to_nat w). split; [lia |]. apply in_seq. lia.
Qed.

Lemma code_zero_is_silence_widths (F : FloatType) :
  forallb (fun w => code_zero_is_silence (MkIntType true w) F) widths = true.
Proof. destruct F; vm_compute; reflexivity. Qed.

(** C10: for every unsigned type of 2 to 64 bits, [int_to_float 0] is
    exactly 0.0, the same output as for the zero point, although 0 is the
    code that [float_to_int] assigns to -1.0: the branch below the zero
    point divides the code itself by [get_zero - 1]. *)
Theorem unsigned_code_zero_is_silence (I : IntType) (F : FloatType) :
  is_unsigned I = true ->
  2 <= width I <= 64 ->
  int_to_float I F 0 = zero F
  /\ int_to_float I F 0 = fdiv F (of_Z F 0) (of_Z F (get_zero I - 1))
  /\ int_to_float I F 0 = int_to_float I F (get_zero I)
  /\ float_to_int F I (minus_one F) = Some 0.
Proof.
  destruct I as [u w]. simpl. intros -> Hw.
  apply code_zero_is_silence_sound.
  pose proof (code_zero_is_silence_widths F) as Hall.
  rewrite forallb_forall in Hall.
  apply Hall, in_widths, Hw.
Qed.

Lemma unsigned_code_zero_is_silence_witness :
  int_to_float uint8_t double 0 = zero double
  /\ int_to_float uint8_t double 0
     = fdiv double (of_Z double 0) (of_Z double (get_zero uint8_t - 1))
  /\ int_to_float uint8_t double 0 = int_to_float uint8_t double (get_zero uint8_t)
  /\ float_to_int double uint8_t (minus_one double) = Some 0.
Proof.
  apply (unsigned_code_zero_is_silence uint8_t double).
  - reflexivity.
  - simpl. lia.
Defined.

(** A one-bit unsigned type is excluded: its zero point is 1, and code 0
    is divided by [get_zero - 1 = 0]. *)
Lemma one_bit_code_zero_is_nan (F : FloatType) :
  get_zero (MkIntType true 1) = 1
  /\ int_to_float (MkIntType true 1) F 0 = S754_nan.
Proof. destruct F; split; reflexivity. Qed.

(** ** Evaluations of the inverse conversion *)

(** The signed branches of [int_to_float] multiply by the limits of the
    integer type: the result leaves [-1.0, 1.0] for every code but 0. *)
Lemma int_to_float_signed_scale (F : FloatType) :
  int_to_float int16_t F (-1) = of_Z F (-32767)
  /\ int_to_float int16_t F 1 = of_Z F (-32768)
  /\ int_to_float int32_t F (-1) = of_Z F (-2147483647)
  /\ int_to_float int32_t F 1 = of_Z F (-2147483648).
Proof. destruct F; vm_compute; repeat split. Qed.

(** C5: [int_to_float<int16_t, F>(-1)] is [-1 * 32767 = -32767.0], below
    -1.0, and not the quotient [-1 / 32768 = -2 ^ -15]. *)
Theorem int_to_float_negative_signed (F : FloatType) :
  int_to_float int16_t F (-1)
    = fmul F (of_Z F (-1)) (of_Z F (numeric_limits_max int16_t))
  /\ int_to_float int16_t F (-1) = of_Z F (-32767)
  /\ fdiv F (of_Z F (-1)) (of_Z F (- numeric_limits_min int16_t)) = literal F (-1) (-15)
  /\ SFltb (int_to_float int16_t F (-1)) (minus_one F) = true
  /\ int_to_float int16_t F (-1)
     <> fdiv F (of_Z F (-1)) (of_Z F (- numeric_limits_min int16_t)).
Proof.
  destruct F; vm_compute; repeat split; discriminate.
Qed.

(** C1: the integer round trip loses the code.  With [uint8_t], code 0
    comes back as 128 and code 255 as 254; with [int16_t], code 1 becomes
    -32768.0, whose conversion back has no result in [int16_t]. *)
Theorem integer_round_trip_lost (F : FloatType) :
  float_to_int F uint8_t (int_to_float uint8_t F 0) = Some 128
  /\ float_to_int F uint8_t (int_to_float uint8_t F 255) = Some 254
  /\ int_to_float int16_t F 1 = of_Z F (-32768)
  /\ float_to_int F int16_t (int_to_float int16_t F 1) = None.
Proof. destruct F; vm_compute; repeat split. Qed.

(** C4: the float round trip is off by far more than a quantization step.
    With [int16_t], 0.5 goes to 16384 and comes back as [-2 ^ 29]; with
    [uint8_t], -1.0 goes to 0 and comes back as 0.0.  Both errors are at
    least 1.0, and a step [1 / range] is at most [1 / 127]. *)
Theorem float_round_trip_error (F : FloatType) :
  float_to_int F int16_t (half F) = Some 16384
  /\ int_to_float int16_t F 16384 = literal F (-1) 29
  /\ SFleb (one F) (SFabs (fsub F (int_to_float int16_t F 16384) (half F))) = true
  /\ float_to_int F uint8_t (minus_one F) = Some 0
  /\ int_to_float uint8_t F 0 = zero F
  /\ SFleb (one F) (SFabs (fsub F (int_to_float uint8_t F 0) (minus_one F))) = true
  /\ SFltb (fdiv F (one F) (of_Z F 127)) (one F) = true.
Proof. destruct F; vm_compute; repeat split. Qed.

(** ** Branch equations *)

Section Branches.
Variable F : FloatType.
Variable I : IntType.

Lemma int_to_float_signed_negative (value : Z) :
  is_unsigned I = false -> value < 0 ->
  int_to_float I F value
  = fmul F (of_Z F value) (of_Z F (numeric_limits_max I)).
Proof.
  intros Hs Hneg. unfold int_to_float.
  rewrite (get_zero_signed I Hs), Hs.
  destruct (Z.eqb_spec value 0) as [-> | _]; [lia |].
  destruct (Z.ltb_spec value 0) as [_ | Hge]; [reflexivity | lia].
Qed.

Lemma int_to_float_signed_positive (value : Z) :
  is_unsigned I = false -> 0 < value ->
  int_to_float I F value
  = fmul F (of_Z F value) (of_Z F (numeric_limits_min I)).
Proof.
  intros Hs Hpos. unfold int_to_float.
  rewrite (get_zero_signed I Hs), Hs.
  destruct (Z.eqb_spec value 0) as [-> | _]; [lia |].
  destruct (Z.ltb_spec value 0) as [Hlt | _]; [lia | reflexivity].
Qed.

Lemma int_to_float_unsigned_below (value : Z) :
  is_unsigned I = true -> value < get_zero I ->
  int_to_float I F value
  = fdiv F (of_Z F value) (of_Z F (get_zero I - 1)).
Proof.
  intros Hu Hlt. unfold int_to_float. rewrite Hu.
  destruct (Z.eqb_spec value (get_zero I)) as [-> | _]; [lia |].
  destruct (Z.ltb_spec value (get_zero I)) as [_ | Hge]; [reflexivity | lia].
Qed.

Lemma int_to_float_unsigned_above (value : Z) :
  is_unsigned I = true -> get_zero I < value ->
  int_to_float I F value
  = fdiv F (of_Z F (value - get_zero I)) (of_Z F (get_zero I)).
Proof.
  intros Hu Hgt. unfold int_to_float. rewrite Hu.
  destruct (Z.eqb_spec value (get_zero I)) as [-> | _]; [lia |].
  destruct (Z.ltb_spec value (get_zero I)) as [Hlt | _]; [lia | reflexivity].
Qed.

(** The unsigned branch for positive inputs has no call of [round_float]. *)
Lemma float_to_int_unsigned_positive (m : positive) (e : Z) :
  is_unsigned I = true ->
  float_to_int F I (S754_finite false m e)
  = static_cast_int I
      (fadd F (fmul F (S754_finite false m e) (of_Z F (get_zero I - 1)))
              (of_Z F (get_zero I))).
Proof.
  intros Hu. unfold float_to_int. rewrite Hu, zero_is_positive_zero.
  reflexivity.
Qed.

Lemma float_to_int_unsigned_negative (m : positive) (e : Z) :
  is_unsigned I = true ->
  float_to_int F I (S754_finite true m e)
  = (r <- round_float F
            (fadd F (of_Z F (get_zero I))
                    (fmul F (S754_finite true m e) (of_Z F (get_zero I)))) ;;
     static_cast_int I r).
Proof.
  intros Hu. unfold float_to_int. rewrite Hu, zero_is_positive_zero.
  reflexivity.
Qed.

Lemma float_to_int_signed_positive (m : positive) (e : Z) :
  is_unsigned I = false ->
  float_to_int F I (S754_finite false m e)
  = (r <- round_float F
            (fmul F (S754_finite false m e) (of_Z F (numeric_limits_max I))) ;;
     static_cast_int I r).
Proof.
  intros Hs. unfold float_to_int. rewrite Hs, zero_is_positive_zero.
  reflexivity.
Qed.

Lemma float_to_int_signed_negative (m : positive) (e : Z) :
  is_unsigned I = false ->
  float_to_int F I (S754_finite true m e)
  = (r <- round_float F
            (fmul F (S754_finite false m e) (of_Z F (numeric_limits_min I))) ;;
     static_cast_int I r).
Proof.
  intros Hs. unfold float_to_int. rewrite Hs, zero_is_positive_zero.
  reflexivity.
Qed.
End Branches.

(** ** Evaluations of the rounder *)

Lemma half_is_positive (T : FloatType) :
  exists m e, half T = S754_finite false m e.
Proof. destruct T; eexists; eexists; reflexivity. Qed.

(** Every value strictly between -1 and 0 is rounded to 0: the remainder
    is the value itself, which is below 0.5. *)
Lemma round_float_small_negative (T : FloatType) (m : positive) (e : Z) :
  e < 0 -> Z.pos m < 2 ^ (- e) ->
  round_float T (S754_finite true m e) = Some (of_Z T 0).
Proof.
  intros He Hm. unfold round_float, static_cast_int. simpl trunc.
  destruct (Z.leb_spec 0 e) as [Hge | _]; [lia |].
  rewrite (Z.div_small (Z.pos m) (2 ^ (- e))) by lia.
  simpl.
  destruct (half_is_positive T) as (hm & he & ->).
  reflexivity.
Qed.

(** C6: [round_float] rounds the positive ties 0.5, 1.5, 2.5 to even, but
    truncates negative inputs toward zero: -1.5 gives -1.0 (its mirror
    image 1.5 gives 2.0), and -0.75 gives 0.0 where the nearest integer
    is -1. *)
Theorem round_float_negative_truncates (T : FloatType) :
  round_float T (literal T 1 (-1)) = Some (of_Z T 0)
  /\ round_float T (literal T 3 (-1)) = Some (of_Z T 2)
  /\ round_float T (literal T 5 (-1)) = Some (of_Z T 2)
  /\ round_float T (literal T (-3) (-1)) = Some (of_Z T (-1))
  /\ round_float T (literal T (-3) (-2)) = Some (of_Z T 0)
  /\ round_float T (literal T (-5) (-1)) = Some (of_Z T (-2))
  /\ round_float T (literal T (-7) (-1)) = Some (of_Z T (-3)).
Proof. destruct T; vm_compute; repeat split. Qed.

(** ** Evaluations of the forward conversion *)

(** C7: in the unsigned, non-negative branch the sum is truncated by the
    cast, not rounded: 0.5 gives [0.5 * 127 + 128 = 191.5], the code
    returns 191, and [round_float] of the same sum is 192. *)
Theorem unsigned_positive_truncated (F : FloatType) :
  fadd F (fmul F (half F) (of_Z F (get_zero uint8_t - 1))) (of_Z F (get_zero uint8_t))
    = literal F 383 (-1)
  /\ float_to_int F uint8_t (half F) = Some 191
  /\ (r <- round_float F
             (fadd F (fmul F (half F) (of_Z F (get_zero uint8_t - 1)))
                     (of_Z F (get_zero uint8_t))) ;;
      static_cast_int uint8_t r) = Some 192.
Proof. destruct F; vm_compute; repeat split. Qed.

(** The extremes of the float domain reach the extremes of the integer
    type in every instantiation but [float_to_int<float, int32_t>]. *)
Lemma full_range_where_exact :
  Forall (fun FI : FloatType * IntType =>
            let (F, I) := FI in
            float_to_int F I (one F) = Some (numeric_limits_max I)
            /\ float_to_int F I (minus_one F) = Some (numeric_limits_min I))
    [(float, uint8_t); (double, uint8_t); (float, int16_t); (double, int16_t);
     (double, int32_t)].
Proof. repeat constructor. Qed.

Lemma int32_max_as_float :
  of_Z float (numeric_limits_max int32_t) = literal float 1 31
  /\ of_Z double (numeric_limits_max int32_t) = literal double 2147483647 0.
Proof. split; reflexivity. Qed.

(** C3: [float_to_int<float, int32_t>(1.0f)] has no result.  The cast of
    [2147483647] to [float] rounds to [2 ^ 31], the product with 1.0 is
    [2 ^ 31], and its conversion to [int] in [round_float] is out of range.
    The negative extreme is reached. *)
Theorem full_scale_float_int32 :
  fmul float (one float) (of_Z float (numeric_limits_max int32_t)) = literal float 1 31
  /\ trunc (literal float 1 31) = Some 2147483648
  /\ static_cast_int int (literal float 1 31) = None
  /\ round_float float (literal float 1 31) = None
  /\ float_to_int float int32_t (one float) = None
  /\ float_to_int float int32_t (minus_one float) = Some (numeric_limits_min int32_t).
Proof. vm_compute. repeat split. Qed.

(** C8: with [F = float] and [I = int32_t] the inputs [0.5 < 1.0] are both
    in the clamped domain; the first converts to [2 ^ 30] and the second
    has no result, so no order holds between them. *)
Theorem monotonicity_float_int32 :
  SFltb (half float) (one float) = true
  /\ clip_float float (half float) = half float
  /\ clip_float float (one float) = one float
  /\ float_to_int float int32_t (half float) = Some 1073741824
  /\ float_to_int float int32_t (one float) = None.
Proof. vm_compute. repeat split. Qed.

(** ** Exhaustive round trip on [uint8_t] *)

Lemma in_all_codes (I : IntType) (i : Z) :
  in_range I i = true -> In i (all_codes I).
Proof.
  unfold in_range, all_codes. intros H.
  apply andb_true_iff in H. destruct H as [Hlo Hhi].
  apply Z.leb_le in Hlo. apply Z.leb_le in Hhi.
  apply in_map_iff. exists (Z.to_nat (i - numeric_limits_min I)). split.
  - rewrite Z2Nat.id by lia. lia.
  - apply in_seq. lia.
Qed.

Lemma survives_iff (I : IntType) (F : FloatType) (i : Z) :
  survives I F i = true <-> int_round_trip I F i = Some i.
Proof.
  unfold survives. destruct (int_round_trip I F i) as [j |].
  - rewrite Z.eqb_eq. split; [intros -> | intros [= ->]]; reflexivity.
  - split; discriminate.
Qed.

Lemma only_zero_point_survives_uint8 (F : FloatType) :
  only_zero_point_survives uint8_t F = true.
Proof. destruct F; vm_compute; reflexivity. Qed.

(** X19: for [uint8_t] the zero point is the only code that the integer
    round trip returns. *)
Lemma uint8_round_trip_only_zero_point (F : FloatType) (i : Z) :
  in_range uint8_t i = true ->
  int_round_trip uint8_t F i = Some i <-> i = get_zero uint8_t.
Proof.
  intros Hr. split.
  - intros Hs. apply survives_iff in Hs.
    pose proof (only_zero_point_survives_uint8 F) as Hcodes.
    unfold only_zero_point_survives in Hcodes.
    rewrite forallb_forall in Hcodes.
    specialize (Hcodes i (in_all_codes uint8_t i Hr)).
    rewrite Hs in Hcodes. apply Z.eqb_eq. exact Hcodes.
  - intros ->. unfold int_round_trip.
    rewrite int_to_float_zero_point. apply float_to_int_zero.
Qed.

(** The signed round trip at the extreme and the unit codes of [int16_t]. *)
Lemma int16_round_trip_samples (F : FloatType) :
  map (int_round_trip int16_t F) [-32768; -1; 1; 32767] = [None; None; None; None].
Proof. destruct F; vm_compute; reflexivity. Qed.

(** ** The forward conversion on a grid *)

(** On the grid [float_to_int] is monotonic in the five instantiations in
    which the scale factor is exact, and not for [float] / [int32_t], where
    the last point, 1.0, has no result. *)
Lemma float_to_int_on_grid :
  map (fun FI : FloatType * IntType =>
         let (F, I) := FI in nondecreasing (map (float_to_int F I) (grid F)))
      [(float, uint8_t); (double, uint8_t); (float, int16_t); (double, int16_t);
       (double, int32_t); (float, int32_t)]
  = [true; true; true; true; true; false].
Proof. vm_compute. reflexivity. Qed.

(** ** Exact normalisation *)

Lemma iter_xO_value (m d : positive) :
  Z.pos (Pos.iter xO m d) = Z.pos m * 2 ^ Z.pos d.
Proof.
  induction d as [| d IH] using Pos.peano_ind.
  - simpl. lia.
  - rewrite Pos.iter_succ, Pos2Z.inj_succ, Z.pow_succ_r by lia.
    rewrite Pos2Z.inj_xO, IH. lia.
Qed.

Lemma digits_iter_xO (m d : positive) :
  digits2_pos (Pos.iter xO m d) = (digits2_pos m + d)%positive.
Proof.
  induction d as [| d IH] using Pos.peano_ind.
  - simpl. lia.
  - rewrite Pos.iter_succ. simpl. rewrite IH. lia.
Qed.

Lemma digits_bounds (p : positive) :
  2 ^ (Z.pos (digits2_pos p) - 1) <= Z.pos p < 2 ^ Z.pos (digits2_pos p).
Proof.
  induction p as [p IH | p IH |]; simpl digits2_pos.
  - rewrite Pos2Z.inj_succ, Z.pow_succ_r by lia.
    replace (Z.succ (Z.pos (digits2_pos p)) - 1) with (Z.succ (Z.pos (digits2_pos p) - 1)) by lia.
    rewrite Z.pow_succ_r by lia. lia.
  - rewrite Pos2Z.inj_succ, Z.pow_succ_r by lia.
    replace (Z.succ (Z.pos (digits2_pos p)) - 1) with (Z.succ (Z.pos (digits2_pos p) - 1)) by lia.
    rewrite Z.pow_succ_r by lia. lia.
  - simpl. lia.
Qed.

Section Exact.
Variables prec emax : Z.

Lemma shl_align_spec (mx : positive) (ex ex' : Z) :
  ex' <= ex ->
  exists mz, shl_align mx ex ex' = (mz, ex')
             /\ Z.pos mz = Z.pos mx * 2 ^ (ex - ex')
             /\ Z.pos (digits2_pos mz) = Z.pos (digits2_pos mx) + (ex - ex').
Proof.
  intros Hle. unfold shl_align.
  destruct (ex' - ex) as [| d | d] eqn:Hd; try lia.
  - exists mx. assert (ex' = ex) by lia. subst ex'.
    rewrite Z.sub_diag. simpl. repeat split; lia.
  - exists (Pos.iter xO mx d).
    replace (ex - ex') with (Z.pos d) by lia.
    rewrite iter_xO_value, digits_iter_xO. repeat split; lia.
Qed.

(** A mantissa of at most [prec] digits at an exponent not below [emin]
    is normalised without rounding. *)
Lemma binary_round_exact (s : bool) (p : positive) (e : Z) :
  Z.pos (digits2_pos p) <= prec ->
  emin prec emax <= e ->
  e <= emax - prec ->
  exists mz,
    binary_round prec emax s p e
    = S754_finite s mz (fexp prec emax (Z.pos (digits2_pos p) + e))
    /\ Z.pos mz = Z.pos p * 2 ^ (e - fexp prec emax (Z.pos (digits2_pos p) + e)).
Proof.
  intros Hd Hmin Hmax.
  unfold binary_round.
  remember (fexp prec emax (Z.pos (digits2_pos p) + e)) as e' eqn:Ee'.
  assert (He' : e' <= e) by (subst e'; unfold fexp; lia).
  destruct (shl_align_spec p e e' He') as (mz & -> & Hmz & Hdz).
  exists mz. split; [| exact Hmz].
  unfold binary_round_aux, shr_fexp.
  match goal with
  | |- context [shr _ e' ?n] => assert (Hfix : n = 0)
  end.
  { simpl Zdigits2. norm_Z. rewrite Hdz.
    replace (Z.pos (digits2_pos p) + (e - e') + e') with (Z.pos (digits2_pos p) + e) by lia.
    rewrite <- Ee'. lia. }
  rewrite Hfix. simpl shr. cbv beta iota zeta.
  simpl shr_m. simpl loc_of_shr_record. simpl round_nearest_even.
  simpl shr_record_of_loc.
  match goal with
  | |- context [shr _ e' ?n] => replace n with 0 by (rewrite <- Hfix; reflexivity)
  end.
  simpl. norm_Z.
  destruct (Z.leb_spec e' (emax - prec)) as [_ | Hgt]; [reflexivity | lia].
Qed.
End Exact.

(** ** Signs *)

Lemma binary_round_aux_sign (prec emax : Z) (s : bool) (m e : Z) (l : location) :
  has_sign s (binary_round_aux prec emax s m e l).
Proof.
  unfold binary_round_aux.
  destruct (shr_fexp prec emax m e l) as [mrs' e'].
  destruct (shr_fexp prec emax _ e' loc_Exact) as [mrs'' e''].
  destruct (shr_m mrs'') as [| p | p]; simpl; [reflexivity | | exact I].
  destruct (Z.leb e'' (Z.sub emax prec)); reflexivity.
Qed.

Lemma binary_round_sign (prec emax : Z) (s : bool) (m : positive) (e : Z) :
  has_sign s (binary_round prec emax s m e).
Proof.
  unfold binary_round.
  destruct (shl_align m e _) as [mz ez]. apply binary_round_aux_sign.
Qed.

Lemma of_Z_nonneg (F : FloatType) (z : Z) : 0 <= z -> has_sign false (of_Z F z).
Proof.
  intros Hz. unfold of_Z, binary_normalize.
  destruct z as [| p | p]; [reflexivity | apply binary_round_sign | lia].
Qed.

Lemma of_Z_neg (F : FloatType) (z : Z) : z < 0 -> has_sign true (of_Z F z).
Proof.
  intros Hz. unfold of_Z, binary_normalize.
  destruct z as [| p | p]; [lia | lia | apply binary_round_sign].
Qed.

Lemma fmul_sign (F : FloatType) (sx sy : bool) (x y : spec_float) :
  has_sign sx x -> has_sign sy y -> has_sign (xorb sx sy) (fmul F x y).
Proof.
  unfold fmul.
  destruct x as [sx' | sx' | | sx' mx ex], y as [sy' | sy' | | sy' my ey];
    simpl; try (intros; exact I); try (intros -> ->; reflexivity).
  intros -> ->. apply binary_round_aux_sign.
Qed.

Lemma fdiv_sign (F : FloatType) (sx sy : bool) (x y : spec_float) :
  has_sign sx x -> has_sign sy y -> has_sign (xorb sx sy) (fdiv F x y).
Proof.
  unfold fdiv.
  destruct x as [sx' | sx' | | sx' mx ex], y as [sy' | sy' | | sy' my ey];
    simpl; try (intros; exact I); try (intros -> ->; reflexivity).
  intros -> ->.
  destruct (SFdiv_core_binary _ _ _ _ _ _) as [[mz ez] lz].
  apply binary_round_aux_sign.
Qed.

Lemma not_negative (F : FloatType) (x : spec_float) :
  has_sign false x -> SFltb x (zero F) = false.
Proof.
  rewrite zero_is_positive_zero.
  destruct x as [s | s | | s m e]; simpl; try reflexivity; intros ->; reflexivity.
Qed.

Lemma not_positive (F : FloatType) (x : spec_float) :
  has_sign true x -> SFltb (zero F) x = false.
Proof.
  rewrite zero_is_positive_zero.
  destruct x as [s | s | | s m e]; simpl; try reflexivity; intros ->; reflexivity.
Qed.

(** ** The zero point *)

Lemma get_zero_unsigned (I : IntType) :
  is_unsigned I = true -> 1 <= width I ->
  get_zero I = 2 ^ (width I - 1).
Proof.
  intros Hu Hw. unfold get_zero, wrap, numeric_limits_max. rewrite Hu.
  assert (Hpow : 2 ^ width I = 2 * 2 ^ (width I - 1)).
  { rewrite <- Z.pow_succ_r by lia. f_equal. lia. }
  assert (Hpos : 0 < 2 ^ (width I - 1)) by (apply Z.pow_pos_nonneg; lia).
  rewrite Z.quot_div_nonneg by lia.
  replace ((2 ^ width I - 1) / 2) with (2 ^ (width I - 1) - 1).
  - rewrite Z.mod_small; lia.
  - rewrite Hpow. apply Z.div_unique with (r := 1); lia.
Qed.

(** X1: for an unsigned type of at least one bit the zero point is
    [2 ^ (width - 1)]: it is a code of the type, there are [get_zero] codes
    below it and [get_zero - 1] codes above it. *)
Theorem get_zero_is_midpoint (I : IntType) :
  is_unsigned I = true -> 1 <= width I ->
  get_zero I = 2 ^ (width I - 1)
  /\ in_range I (get_zero I) = true
  /\ get_zero I - numeric_limits_min I = get_zero I
  /\ numeric_limits_max I - get_zero I = get_zero I - 1.
Proof.
  intros Hu Hw. rewrite (get_zero_unsigned I Hu Hw).
  unfold in_range, numeric_limits_min, numeric_limits_max. rewrite Hu.
  assert (Hpow : 2 ^ width I = 2 * 2 ^ (width I - 1)).
  { rewrite <- Z.pow_succ_r by lia. f_equal. lia. }
  assert (Hpos : 0 < 2 ^ (width I - 1)) by (apply Z.pow_pos_nonneg; lia).
  repeat split; lia.
Qed.

Lemma get_zero_is_midpoint_witness :
  get_zero uint8_t = 2 ^ (width uint8_t - 1)
  /\ in_range uint8_t (get_zero uint8_t) = true
  /\ get_zero uint8_t - numeric_limits_min uint8_t = get_zero uint8_t
  /\ numeric_limits_max uint8_t - get_zero uint8_t = get_zero uint8_t - 1.
Proof.
  apply (get_zero_is_midpoint uint8_t); [reflexivity | simpl; lia].
Defined.

(** ** Signs of the inverse conversion *)

(** X2: [int_to_float] never returns a negative value for a code of an
    unsigned type. *)
Theorem int_to_float_unsigned_not_negative (I : IntType) (F : FloatType) (value : Z) :
  is_unsigned I = true -> 1 <= width I -> 0 <= value ->
  SFltb (int_to_float I F value) (zero F) = false.
Proof.
  intros Hu Hw Hv.
  pose proof (get_zero_unsigned I Hu Hw) as Hz.
  assert (Hpos : 0 < 2 ^ (width I - 1)) by (apply Z.pow_pos_nonneg; lia).
  apply not_negative.
  unfold int_to_float. rewrite Hu.
  destruct (Z.eqb_spec value (get_zero I)) as [_ | Hne]; [reflexivity |].
  destruct (Z.ltb_spec value (get_zero I)) as [Hlt | Hge].
  - change false with (xorb false false).
    apply fdiv_sign; apply of_Z_nonneg; lia.
  - change false with (xorb false false).
    apply fdiv_sign; apply of_Z_nonneg; lia.
Qed.

Lemma int_to_float_unsigned_not_negative_witness :
  SFltb (int_to_float uint8_t float 5) (zero float) = false.
Proof.
  apply (int_to_float_unsigned_not_negative uint8_t float 5);
    [reflexivity | simpl; lia | lia].
Defined.

(** X3: [int_to_float] never returns a positive value for a code of a
    signed type. *)
Theorem int_to_float_signed_not_positive (I : IntType) (F : FloatType) (value : Z) :
  is_unsigned I = false -> 1 <= width I ->
  SFltb (zero F) (int_to_float I F value) = false.
Proof.
  intros Hs Hw.
  assert (Hpos : 0 < 2 ^ (width I - 1)) by (apply Z.pow_pos_nonneg; lia).
  unfold int_to_float. rewrite (get_zero_signed I Hs), Hs.
  destruct (Z.eqb_spec value 0) as [_ | Hne]; [reflexivity |].
  apply not_positive.
  destruct (Z.ltb_spec value 0) as [Hlt | Hge].
  - change true with (xorb true false).
    apply fmul_sign; [apply of_Z_neg; lia | apply of_Z_nonneg].
    unfold numeric_limits_max. rewrite Hs. lia.
  - change true with (xorb false true).
    apply fmul_sign; [apply of_Z_nonneg; lia | apply of_Z_neg].
    unfold numeric_limits_min. rewrite Hs. lia.
Qed.

Lemma int_to_float_signed_not_positive_witness :
  SFltb (zero double) (int_to_float int16_t double 1234) = false.
Proof.
  apply (int_to_float_signed_not_positive int16_t double 1234);
    [reflexivity | simpl; lia].
Defined.

(** ** The clamper *)

Lemma one_vs_bounds (T : FloatType) :
  SFltb (one T) (one T) = false
  /\ SFltb (one T) (minus_one T) = false
  /\ SFltb (minus_one T) (minus_one T) = false
  /\ SFltb (one T) (minus_one T) = false
  /\ SFltb (minus_one T) (one T) = true.
Proof. destruct T; repeat split. Qed.

Lemma clip_float_in_bounds (T : FloatType) (value : spec_float) :
  SFltb (one T) (clip_float T value) = false
  /\ SFltb (clip_float T value) (minus_one T) = false
  /\ clip_float T (clip_float T value) = clip_float T value.
Proof.
  destruct (one_vs_bounds T) as (H11 & H1m & Hmm & _ & _).
  unfold clip_float.
  destruct (SFltb (one T) value) eqn:Hhi.
  - rewrite H11, H1m. repeat split.
  - destruct (SFltb value (minus_one T)) eqn:Hlo.
    + rewrite H1m, Hmm. repeat split.
    + rewrite Hhi, Hlo. repeat split.
Qed.

(** X4: the result of [clip_float] is never above 1.0 nor below -1.0, and
    clamping twice is clamping once. *)
Theorem clip_float_clamps (T : FloatType) (value : spec_float) :
  SFltb (one T) (clip_float T value) = false
  /\ SFltb (clip_float T value) (minus_one T) = false
  /\ clip_float T (clip_float T value) = clip_float T value.
Proof. apply clip_float_in_bounds. Qed.

(** X5: [clip_float] returns its argument unchanged exactly when the
    argument is neither above 1.0 nor below -1.0; a NaN is such an argument
    and is returned as it is, and the infinities are clamped. *)
Theorem clip_float_fixed_points (T : FloatType) (value : spec_float) :
  (clip_float T value = value
   <-> SFltb (one T) value = false /\ SFltb value (minus_one T) = false)
  /\ clip_float T S754_nan = S754_nan
  /\ clip_float T (S754_infinity false) = one T
  /\ clip_float T (S754_infinity true) = minus_one T.
Proof.
  destruct (one_vs_bounds T) as (H11 & H1m & Hmm & _ & _).
  split; [| destruct T; repeat split].
  unfold clip_float. split.
  - destruct (SFltb (one T) value) eqn:Hhi.
    + intros <-. rewrite H11 in Hhi. discriminate.
    + destruct (SFltb value (minus_one T)) eqn:Hlo; [| auto].
      intros <-. rewrite Hmm in Hlo. discriminate.
  - intros [-> ->]. reflexivity.
Qed.

(** ** Inputs that are not finite *)

Lemma static_cast_int_not_finite (I : IntType) (x : spec_float) :
  (x = S754_nan \/ exists s, x = S754_infinity s) ->
  static_cast_int I x = None.
Proof. intros [-> | [s ->]]; reflexivity. Qed.

Lemma round_float_not_finite (T : FloatType) (x : spec_float) :
  (x = S754_nan \/ exists s, x = S754_infinity s) ->
  round_float T x = None.
Proof. intros [-> | [s ->]]; reflexivity. Qed.

Lemma fmul_infinity (F : FloatType) (s : bool) (y : spec_float) :
  let p := fmul F (S754_infinity s) y in
  p = S754_nan \/ exists s', p = S754_infinity s'.
Proof.
  destruct y as [sy | sy | | sy my ey]; simpl; eauto.
Qed.

Lemma fadd_not_finite_r (F : FloatType) (x y : spec_float) :
  (y = S754_nan \/ exists s, y = S754_infinity s) ->
  fadd F x y = S754_nan \/ exists s, fadd F x y = S754_infinity s.
Proof.
  intros [-> | [s ->]].
  - left. destruct x; reflexivity.
  - destruct x as [sx | sx | | sx mx ex]; simpl; eauto.
    destruct sx, s; simpl; eauto.
Qed.

Lemma fadd_not_finite_l (F : FloatType) (x y : spec_float) :
  (x = S754_nan \/ exists s, x = S754_infinity s) ->
  fadd F x y = S754_nan \/ exists s, fadd F x y = S754_infinity s.
Proof.
  intros [-> | [s ->]].
  - left. reflexivity.
  - destruct y as [sy | sy | | sy my ey]; simpl; eauto.
    destruct s, sy; simpl; eauto.
Qed.

(** X6: [float_to_int] and [round_float] have no defined result on a NaN
    or an infinity, whatever the types: the converter does not clamp. *)
Theorem float_to_int_not_finite (F : FloatType) (I : IntType) (value : spec_float) :
  (value = S754_nan \/ exists s, value = S754_infinity s) ->
  float_to_int F I value = None /\ round_float F value = None.
Proof.
  intros Hv. split; [| apply round_float_not_finite, Hv].
  unfold float_to_int. rewrite zero_is_positive_zero.
  destruct Hv as [-> | [s ->]].
  - simpl. destruct (is_unsigned I); reflexivity.
  - assert (Heq : SFeqb (S754_infinity s) (S754_zero false) = false)
      by (destruct s; reflexivity).
    rewrite Heq.
    destruct (is_unsigned I).
    + destruct (SFltb (S754_infinity s) (S754_zero false)).
      * rewrite round_float_not_finite; [reflexivity |].
        apply fadd_not_finite_r, fmul_infinity.
      * apply static_cast_int_not_finite.
        apply fadd_not_finite_l, fmul_infinity.
    + destruct (SFltb (S754_infinity s) (S754_zero false)).
      * rewrite round_float_not_finite; [reflexivity |].
        apply (fmul_infinity F (negb s)).
      * rewrite round_float_not_finite; [reflexivity |].
        apply fmul_infinity.
Qed.

Lemma float_to_int_not_finite_witness :
  float_to_int float int32_t S754_nan = None
  /\ round_float float S754_nan = None.
Proof.
  apply (float_to_int_not_finite float int32_t S754_nan). left. reflexivity.
Defined.

Section InPlaceFacts.
Context {A B : Type}.
Variable scalar : A -> option B.

Lemma subscript_app_length (done : list A) (v : A) (rest : list A) :
  subscript (done ++ v :: rest) (Z.of_nat (length done)) = Some v.
Proof.
  unfold subscript.
  destruct (Z.ltb_spec (Z.of_nat (length done)) 0) as [Hneg | _]; [lia |].
  rewrite Nat2Z.id, nth_error_app2, Nat.sub_diag by lia. reflexivity.
Qed.

Lemma assign_app_length (done : list B) (old c : B) (rest : list B) :
  assign (done ++ old :: rest) (Z.of_nat (length done)) c
  = Some (done ++ c :: rest).
Proof.
  unfold assign. rewrite length_app. simpl length.
  destruct (Z.leb_spec 0 (Z.of_nat (length done))) as [_ | Hneg]; [| lia].
  destruct (Z.ltb_spec (Z.of_nat (length done))
              (Z.of_nat (length done + S (length rest)))) as [_ | Hge]; [| lia].
  cbv [andb]. rewrite Nat2Z.id.
  rewrite firstn_app, Nat.sub_diag, firstn_all, firstn_O, app_nil_r.
  rewrite skipn_app, skipn_all2 by lia.
  replace (S (length done) - length done)%nat with 1%nat by lia.
  reflexivity.
Qed.


(** Loop invariant: the first [length done_out] cells hold conversions
    already, the next [n] are overwritten, the rest is kept. *)
Lemma for_loop_in_place (n : nat) :
  forall (done_in rest_in : list A) (done_out rest_out : list B),
  length done_in = length done_out ->
  (n <= length rest_in)%nat -> (n <= length rest_out)%nat ->
  for_loop (convert_pointer scalar (done_in ++ rest_in)) n
           (Z.of_nat (length done_out)) (done_out ++ rest_out)
  = (cs <- elementwise scalar (firstn n rest_in) ;;
     Some (done_out ++ cs ++ skipn n rest_out)).
Proof.
  induction n as [| n IH]; intros done_in rest_in done_out rest_out Hlen Hin Hout.
  - reflexivity.
  - destruct rest_in as [| v rest_in]; [simpl in Hin; lia |].
    destruct rest_out as [| old rest_out]; [simpl in Hout; lia |].
    simpl in Hin, Hout. simpl for_loop. simpl firstn. simpl skipn.
    unfold convert_pointer at 1.
    rewrite <- Hlen, subscript_app_length. simpl bind at 1.
    simpl elementwise.
    destruct (scalar v) as [c |]; [| reflexivity].
    cbn [bind]. rewrite Hlen, assign_app_length. cbn [bind].
    replace (done_in ++ v :: rest_in) with ((done_in ++ [v]) ++ rest_in)
      by (rewrite <- app_assoc; reflexivity).
    replace (done_out ++ c :: rest_out) with ((done_out ++ [c]) ++ rest_out)
      by (rewrite <- app_assoc; reflexivity).
    replace (Z.of_nat (length done_out) + 1)
      with (Z.of_nat (length (done_out ++ [c])))
      by (rewrite length_app; simpl; lia).
    rewrite IH by (rewrite ?length_app; simpl; lia).
    destruct (elementwise scalar (firstn n rest_in)) as [cs |]; [| reflexivity].
    simpl. rewrite <- app_assoc. reflexivity.
Qed.

Lemma convert_array_prefix (converted : list B) (values : list A) (length : Z) :
  0 <= length ->
  length <= Z.of_nat (List.length values) ->
  length <= Z.of_nat (List.length converted) ->
  convert_array scalar converted values length
  = (cs <- elementwise scalar (firstn (Z.to_nat length) values) ;;
     Some (cs ++ skipn (Z.to_nat length) converted)).
Proof.
  intros H0 Hv Hc. unfold convert_array.
  apply (for_loop_in_place (Z.to_nat length) [] values [] converted);
    [reflexivity | lia | lia].
Qed.

Lemma convert_array_no_length (converted : list B) (values : list A) (length : Z) :
  length <= 0 -> convert_array scalar converted values length = Some converted.
Proof.
  intros Hl. unfold convert_array.
  replace (Z.to_nat length) with 0%nat by lia. reflexivity.
Qed.
End InPlaceFacts.

Section InPlaceVector.
Context {A B : Type}.
Variable scalar : A -> option B.



Lemma convert_in_place_same_length (converted : list B) (values : list A) :
  length converted = length values ->
  Z.of_nat (length values) <= numeric_limits_max int ->
  convert_in_place scalar converted values = convert_vector scalar values.
Proof.
  intros Hlen Hmax. unfold convert_in_place.
  rewrite (size_as_int_small values Hmax).
  rewrite convert_array_prefix by lia.
  rewrite Nat2Z.id, firstn_all.
  rewrite <- Hlen, skipn_all.
  rewrite (convert_vector_elementwise scalar values Hmax).
  destruct (elementwise scalar values) as [cs |]; simpl; [| reflexivity].
  rewrite app_nil_r. reflexivity.
Qed.

End InPlaceVector.

(** X7: when [0 <= length] and both buffers hold at least [length] cells,
    the array form of [float_to_int] overwrites the first [length] cells of
    the destination with the scalar conversions of the first [length]
    inputs, in order, and keeps every later cell. *)
Theorem float_to_int_array_prefix (F : FloatType) (I : IntType)
    (converted : list Z) (values : list spec_float) (length : Z) :
  0 <= length ->
  length <= Z.of_nat (List.length values) ->
  length <= Z.of_nat (List.length converted) ->
  float_to_int_array F I converted values length
  = (cs <- elementwise (float_to_int F I) (firstn (Z.to_nat length) values) ;;
     Some (cs ++ skipn (Z.to_nat length) converted)).
Proof. apply convert_array_prefix. Qed.

Lemma float_to_int_array_prefix_witness :
  float_to_int_array double uint8_t [7; 8; 9] [one double; zero double] 2
  = (cs <- elementwise (float_to_int double uint8_t)
             (firstn (Z.to_nat 2) [one double; zero double]) ;;
     Some (cs ++ skipn (Z.to_nat 2) [7; 8; 9])).
Proof.
  apply (float_to_int_array_prefix double uint8_t [7; 8; 9]
           [one double; zero double] 2); simpl; lia.
Defined.

(** X8: under the same conditions the array form of [int_to_float] replaces
    the first [length] cells of the destination by the scalar conversions
    and keeps every later cell. *)
Theorem int_to_float_array_prefix (I : IntType) (F : FloatType)
    (converted : list spec_float) (values : list Z) (length : Z) :
  0 <= length ->
  length <= Z.of_nat (List.length values) ->
  length <= Z.of_nat (List.length converted) ->
  int_to_float_array I F converted values length
  = Some (map (int_to_float I F) (firstn (Z.to_nat length) values)
          ++ skipn (Z.to_nat length) converted).
Proof.
  intros H0 Hv Hc. unfold int_to_float_array.
  rewrite convert_array_prefix by assumption.
  rewrite elementwise_total. reflexivity.
Qed.

Lemma int_to_float_array_prefix_witness :
  int_to_float_array uint8_t double [zero double; one double; half double] [128; 0] 2
  = Some (map (int_to_float uint8_t double) (firstn (Z.to_nat 2) [128; 0])
          ++ skipn (Z.to_nat 2) [zero double; one double; half double]).
Proof.
  apply (int_to_float_array_prefix uint8_t double
           [zero double; one double; half double] [128; 0] 2); simpl; lia.
Defined.

(** X9: with a length that is zero or negative the array forms touch
    nothing, whatever the buffers are (even empty ones). *)
Theorem array_forms_no_length (F : FloatType) (I : IntType)
    (ints : list Z) (floats : list spec_float) (length : Z) :
  length <= 0 ->
  float_to_int_array F I ints floats length = Some ints
  /\ int_to_float_array I F floats ints length = Some floats.
Proof.
  intros Hl. split; apply convert_array_no_length; exact Hl.
Qed.

Lemma array_forms_no_length_witness :
  float_to_int_array double int16_t [] [] (-3) = Some []
  /\ int_to_float_array int16_t double [] [] (-3) = Some [].
Proof. apply (array_forms_no_length double int16_t [] [] (-3)). lia. Defined.

(** X10: on vectors of one size (that fits [int]) the in-place vector forms
    store what the vector-returning forms return, whatever the destination
    held before. *)
Theorem in_place_agrees_with_returning (F : FloatType) (I : IntType)
    (ints : list Z) (floats : list spec_float) :
  length ints = length floats ->
  Z.of_nat (length floats) <= numeric_limits_max int ->
  float_to_int_in_place F I ints floats = float_to_int_vector F I floats
  /\ int_to_float_in_place I F floats ints = int_to_float_vector I F ints.
Proof.
  intros Hlen Hmax. split.
  - apply convert_in_place_same_length; assumption.
  - apply convert_in_place_same_length; [symmetry; assumption | ].
    rewrite Hlen. exact Hmax.
Qed.

Lemma in_place_agrees_with_returning_witness :
  float_to_int_in_place double uint8_t [1; 2] [one double; half double]
    = float_to_int_vector double uint8_t [one double; half double]
  /\ int_to_float_in_place uint8_t double [one double; half double] [1; 2]
    = int_to_float_vector uint8_t double [1; 2].
Proof.
  apply (in_place_agrees_with_returning double uint8_t [1; 2]
           [one double; half double]); [reflexivity | vm_compute; discriminate].
Defined.



(** ** Exact integer-to-float casts *)

Lemma format_facts (T : FloatType) :
  0 < prec T /\ prec T < emax T /\ emin (prec T) (emax T) <= 1 - prec T.
Proof. destruct T; repeat split; try reflexivity; discriminate. Qed.

Lemma digits_le_prec (T : FloatType) (p : positive) :
  Z.pos p < 2 ^ prec T -> Z.pos (digits2_pos p) <= prec T.
Proof.
  intros Hp. destruct (digits_bounds p) as [Hlo _].
  destruct (format_facts T) as (Hprec & _ & _).
  destruct (Z.le_gt_cases (Z.pos (digits2_pos p)) (prec T)) as [Hle | Hgt];
    [exact Hle |].
  assert (2 ^ prec T <= 2 ^ (Z.pos (digits2_pos p) - 1))
    by (apply Z.pow_le_mono_r; lia).
  lia.
Qed.

(** A nonzero integer below [2 ^ prec] in magnitude is cast to the float
    that represents it. *)
Lemma of_Z_exact (T : FloatType) (z : Z) :
  z <> 0 -> Z.abs z < 2 ^ prec T ->
  exists mz ez,
    of_Z T z = S754_finite (z <? 0) mz ez
    /\ ez <= 0
    /\ Z.pos mz = Z.abs z * 2 ^ (- ez).
Proof.
  intros Hz Hbound.
  destruct (format_facts T) as (Hprec & Hemax & Hemin).
  assert (Hcase : forall s p, Z.pos p < 2 ^ prec T ->
            exists mz ez,
              binary_round (prec T) (emax T) s p 0 = S754_finite s mz ez
              /\ ez <= 0 /\ Z.pos mz = Z.pos p * 2 ^ (- ez)).
  { intros s p Hp.
    pose proof (digits_le_prec T p Hp) as Hd.
    destruct (binary_round_exact (prec T) (emax T) s p 0 Hd) as (mz & Heq & Hmz);
      [lia | lia |].
    exists mz, (fexp (prec T) (emax T) (Z.pos (digits2_pos p) + 0)).
    split; [exact Heq | split].
    - unfold fexp. norm_Z. lia.
    - rewrite Hmz. f_equal. }
  unfold of_Z, binary_normalize.
  destruct z as [| p | p]; [contradiction | |].
  - apply (Hcase false p). simpl in Hbound. exact Hbound.
  - apply (Hcase true p). simpl in Hbound. exact Hbound.
Qed.

Lemma trunc_of_Z (T : FloatType) (z : Z) :
  Z.abs z < 2 ^ prec T -> trunc (of_Z T z) = Some z.
Proof.
  intros Hbound.
  destruct (Z.eq_dec z 0) as [-> | Hz]; [reflexivity |].
  destruct (of_Z_exact T z Hz Hbound) as (mz & ez & -> & Hez & Hmz).
  unfold trunc. rewrite Hmz.
  assert (Hpow : 0 < 2 ^ (- ez)) by (apply Z.pow_pos_nonneg; lia).
  assert (Hval : (if 0 <=? ez then Z.abs z * 2 ^ (- ez) * 2 ^ ez
                  else Z.abs z * 2 ^ (- ez) / 2 ^ (- ez)) = Z.abs z).
  { destruct (Z.leb_spec 0 ez) as [Hge | Hlt].
    - assert (ez = 0) by lia. subst ez. simpl. lia.
    - apply Z.div_mul. lia. }
  rewrite Hval.
  destruct (Z.ltb_spec z 0); f_equal; lia.
Qed.

(** ** The rounder on negative values *)

Lemma magnitude_nonneg (m : positive) (e : Z) : 0 <= magnitude m e.
Proof.
  unfold magnitude. destruct (Z.leb_spec 0 e).
  - apply Z.mul_nonneg_nonneg; [lia | apply Z.pow_nonneg; lia].
  - apply Z.div_pos; [lia | apply Z.pow_pos_nonneg; lia].
Qed.

(** Aligned to an exponent [ez] below both, the magnitude of the truncation
    is at most the mantissa. *)
Lemma magnitude_aligned (m : positive) (e ez : Z) :
  ez <= e -> ez <= 0 ->
  magnitude m e * 2 ^ (- ez) <= Z.pos m * 2 ^ (e - ez).
Proof.
  intros Hez H0. unfold magnitude.
  destruct (Z.leb_spec 0 e) as [Hge | Hlt].
  - replace (e - ez) with (e + - ez) by lia.
    rewrite Z.pow_add_r by lia. lia.
  - replace (- ez) with (- e + (e - ez)) by lia.
    rewrite Z.pow_add_r by lia.
    assert (Hpow : 0 < 2 ^ (- e)) by (apply Z.pow_pos_nonneg; lia).
    assert (Hpow' : 0 <= 2 ^ (e - ez)) by (apply Z.pow_nonneg; lia).
    pose proof (Z.mul_div_le (Z.pos m) (2 ^ (- e)) Hpow) as Hdiv.
    rewrite Z.mul_assoc.
    apply Z.mul_le_mono_nonneg_r; [exact Hpow' | lia].
Qed.

Lemma normalize_nonpos (prec emax : Z) (d e : Z) :
  d <= 0 ->
  let x := binary_normalize prec emax d e false in
  x = S754_zero false \/ has_sign true x.
Proof.
  intros Hd. unfold binary_normalize.
  destruct d as [| p | p]; [left; reflexivity | lia |].
  right. apply binary_round_sign.
Qed.

Lemma below_half (T : FloatType) (x : spec_float) :
  x = S754_zero false \/ has_sign true x ->
  SFltb (half T) x = false /\ SFeqb x (half T) = false.
Proof.
  destruct (half_is_positive T) as (hm & he & ->).
  intros [-> | Hs]; [split; reflexivity |].
  destruct x as [s | s | | s m e]; simpl in Hs; subst; split; reflexivity.
Qed.

Lemma fsub_negative_remainder (T : FloatType) (m : positive) (e : Z) :
  magnitude m e < 2 ^ prec T ->
  let r := fsub T (S754_finite true m e) (of_Z T (- magnitude m e)) in
  r = S754_zero false \/ has_sign true r.
Proof.
  intros Hbound.
  pose proof (magnitude_nonneg m e) as Hnn.
  destruct (Z.eq_dec (magnitude m e) 0) as [Hz | Hz].
  - rewrite Hz. right. reflexivity.
  - destruct (of_Z_exact T (- magnitude m e)) as (mz & ez & Heq & Hez & Hmz);
      [lia | rewrite Z.abs_opp, Z.abs_eq by lia; exact Hbound |].
    rewrite Z.abs_opp, Z.abs_eq in Hmz by lia.
    rewrite Heq.
    replace (- magnitude m e <? 0) with true
      by (symmetry; apply Z.ltb_lt; lia).
    unfold fsub, SFsub.
    destruct (shl_align_spec m e (Z.min e ez)) as (m1 & E1 & V1 & _); [lia |].
    destruct (shl_align_spec mz ez (Z.min e ez)) as (m2 & E2 & V2 & _); [lia |].
    norm_Z. rewrite E1, E2. cbn [fst]. unfold cond_Zopp. norm_Z.
    apply normalize_nonpos.
    rewrite V1, V2, Hmz.
    pose proof (magnitude_aligned m e (Z.min e ez) ltac:(lia) ltac:(lia)) as Hal.
    rewrite <- Z.mul_assoc, <- Z.pow_add_r by lia.
    replace (- ez + (ez - Z.min e ez)) with (- Z.min e ez) by lia.
    lia.
Qed.

Lemma round_float_negative (T : FloatType) (m : positive)
    (e : Z) (t : Z) :
  trunc (S754_finite true m e) = Some t ->
  in_range int t = true ->
  - 2 ^ prec T < t ->
  round_float T (S754_finite true m e) = Some (of_Z T t).
Proof.
  intros Ht Hrange Hprec.
  assert (Hmag : t = - magnitude m e).
  { unfold trunc in Ht. unfold magnitude. injection Ht as <-. reflexivity. }
  unfold round_float, static_cast_int. rewrite Ht. cbn [bind].
  rewrite Hrange. cbn [bind]. cbv zeta.
  destruct (below_half T _ (fsub_negative_remainder T m e ltac:(lia)))
    as [Hlt Heq].
  rewrite <- Hmag in Hlt, Heq. rewrite Hlt, Heq. cbn [bind].
  assert (Hsame : t + (if SFltb (S754_finite true m e) (zero T)
                        then - 0 else 0) = t)
    by (destruct (SFltb (S754_finite true m e) (zero T)); simpl; lia).
  rewrite Hsame. unfold int_checked. rewrite Hrange. reflexivity.
Qed.

(** X12: [round_float] truncates every negative value toward zero.  For
    a negative finite value whose truncation [t] fits [int] and is above
    [- 2 ^ prec] (24 bits for [float], 53 for [double]) the result is [t]
    itself, whatever the fraction. *)
Theorem round_float_negative_is_truncation (T : FloatType) (m : positive)
    (e : Z) (t : Z) :
  trunc (S754_finite true m e) = Some t ->
  in_range int t = true ->
  - 2 ^ prec T < t ->
  round_float T (S754_finite true m e) = Some (of_Z T t).
Proof. apply round_float_negative. Qed.

Lemma round_float_negative_is_truncation_witness :
  round_float float (S754_finite true 15 (-2)) = Some (of_Z float (-3)).
Proof.
  apply (round_float_negative_is_truncation float 15 (-2) (-3));
    vm_compute; reflexivity.
Defined.

(** ** Signs of the forward conversion *)

Lemma trunc_finite (s : bool) (m : positive) (e : Z) :
  trunc (S754_finite s m e)
  = Some (if s then - magnitude m e else magnitude m e).
Proof. reflexivity. Qed.

Lemma trunc_sign (s : bool) (x : spec_float) (c : Z) :
  has_sign s x -> trunc x = Some c -> if s then c <= 0 else 0 <= c.
Proof.
  destruct x as [s' | s' | | s' m e]; try discriminate.
  - intros _ [= <-]. destruct s; lia.
  - rewrite trunc_finite. intros Hs [= <-]. simpl in Hs. subst s'.
    pose proof (magnitude_nonneg m e) as Hnn.
    destruct s; lia.
Qed.

Lemma trunc_of_Z_sign (T : FloatType) (n c : Z) :
  trunc (of_Z T n) = Some c ->
  (n <= 0 -> c <= 0) /\ (0 <= n -> 0 <= c).
Proof.
  intros Hc. split; intros Hn.
  - destruct (Z.eq_dec n 0) as [-> | Hne].
    + simpl in Hc. injection Hc as <-. lia.
    + apply (trunc_sign true (of_Z T n) c); [apply of_Z_neg; lia | exact Hc].
  - apply (trunc_sign false (of_Z T n) c); [apply of_Z_nonneg; lia | exact Hc].
Qed.

(** Whatever [round_float] returns is the cast of an [int] that lies on
    the side of zero of its argument. *)
Lemma round_float_integer (T : FloatType) (s : bool) (x r : spec_float) :
  has_sign s x ->
  round_float T x = Some r ->
  exists n, r = of_Z T n /\ in_range int n = true
            /\ if s then n <= 0 else 0 <= n.
Proof.
  intros Hs. unfold round_float, static_cast_int.
  destruct (trunc x) as [t |] eqn:Ht; cbn [bind]; [| discriminate].
  destruct (in_range int t) eqn:Hr; cbn [bind]; [| discriminate].
  cbv zeta.
  pose proof (trunc_sign s x t Hs Ht) as Hts.
  assert (Hrv : forall (rv : option Z) (k : Z -> option spec_float),
            bind rv k = Some r ->
            exists v, rv = Some v /\ k v = Some r).
  { intros [v |] k; cbn [bind]; [eauto | discriminate]. }
  intros Hres. apply Hrv in Hres. destruct Hres as (rv & Hrvdef & Hres).
  apply Hrv in Hres. destruct Hres as (n & Hn & Hres).
  injection Hres as <-. exists n.
  unfold int_checked in Hn.
  destruct (in_range int _) eqn:Hrn in Hn; [| discriminate].
  injection Hn as Hn. split; [reflexivity | split; [rewrite <- Hn; exact Hrn |]].
  assert (Hbit : rv = 0 \/ rv = 1).
  { destruct (SFltb (half T) _) in Hrvdef.
    - injection Hrvdef as <-. auto.
    - destruct (SFeqb _ (half T)) in Hrvdef.
      + match type of Hrvdef with
        | bind ?c _ = _ => destruct c as [next |]
        end; cbn [bind] in Hrvdef; [| discriminate].
        injection Hrvdef as <-. destruct (Z.rem next 2 =? 0); auto.
      + injection Hrvdef as <-. auto. }
  destruct x as [s' | s' | | s' m e]; simpl in Hs; try discriminate.
  - (* a zero: the remainder is the zero itself *)
    subst s'. simpl in Ht. injection Ht as <-.
    assert (rv = 0).
    { simpl of_Z in Hrvdef.
      destruct (half_is_positive T) as (hm & he & Hhalf).
      rewrite Hhalf in Hrvdef. destruct s; simpl in Hrvdef;
        injection Hrvdef as <-; reflexivity. }
    subst rv. rewrite zero_is_positive_zero in Hn.
    destruct s; simpl in Hn; lia.
  - subst s'. rewrite zero_is_positive_zero in Hn.
    destruct s; simpl in Hn; lia.
Qed.

(** X13: for a signed target [float_to_int] never changes the side of
    zero: a negative input gives a code [<= 0] and a positive input a
    code [>= 0], whenever the conversion has a result. *)
Theorem float_to_int_signed_keeps_sign (F : FloatType) (I : IntType)
    (s : bool) (m : positive) (e : Z) (c : Z) :
  is_unsigned I = false -> 1 <= width I ->
  float_to_int F I (S754_finite s m e) = Some c ->
  if s then c <= 0 else 0 <= c.
Proof.
  intros Hsg Hw.
  assert (Hpos : 0 < 2 ^ (width I - 1)) by (apply Z.pow_pos_nonneg; lia).
  assert (Hcast : forall (x : spec_float),
            has_sign s x ->
            (r <- round_float F x ;; static_cast_int I r) = Some c ->
            if s then c <= 0 else 0 <= c).
  { intros x Hx.
    destruct (round_float F x) as [r |] eqn:Hr; cbn [bind]; [| discriminate].
    destruct (round_float_integer F s x r Hx Hr) as (n & -> & _ & Hn).
    unfold static_cast_int.
    destruct (trunc (of_Z F n)) as [t |] eqn:Ht; cbn [bind]; [| discriminate].
    destruct (in_range I t); [| discriminate].
    intros [= <-].
    destruct (trunc_of_Z_sign F n t Ht) as [Hneg Hnn].
    destruct s; auto. }
  destruct s.
  - rewrite float_to_int_signed_negative by exact Hsg.
    apply Hcast. change true with (xorb false true).
    apply fmul_sign; [reflexivity | apply of_Z_neg].
    unfold numeric_limits_min. rewrite Hsg. lia.
  - rewrite float_to_int_signed_positive by exact Hsg.
    apply Hcast. change false with (xorb false false).
    apply fmul_sign; [reflexivity | apply of_Z_nonneg].
    unfold numeric_limits_max. rewrite Hsg. lia.
Qed.

Lemma float_to_int_signed_keeps_sign_witness :
  float_to_int double int16_t (S754_finite false 1 (-1)) = Some 16384
  /\ 0 <= 16384.
Proof.
  split; [vm_compute; reflexivity |].
  apply (float_to_int_signed_keeps_sign double int16_t false 1 (-1) 16384);
    [reflexivity | simpl; lia | vm_compute; reflexivity].
Defined.

(** ** The rounder on non-negative values *)

Lemma digits_unique (p : positive) (n : Z) :
  2 ^ (n - 1) <= Z.pos p < 2 ^ n -> Z.pos (digits2_pos p) = n.
Proof.
  intros [Hlo Hhi]. destruct (digits_bounds p) as [Dlo Dhi].
  assert (Hn : 0 < n).
  { destruct (Z.lt_ge_cases 0 n) as [|Hle]; [assumption |].
    destruct (Z.eq_dec n 0) as [-> | Hne]; [simpl in Hhi; lia |].
    rewrite Z.pow_neg_r in Hhi by lia. lia. }
  destruct (Z.lt_trichotomy (Z.pos (digits2_pos p)) n) as [Hlt | [Heq | Hgt]];
    [| exact Heq |].
  - assert (2 ^ Z.pos (digits2_pos p) <= 2 ^ (n - 1))
      by (apply Z.pow_le_mono_r; lia).
    lia.
  - assert (2 ^ n <= 2 ^ (Z.pos (digits2_pos p) - 1))
      by (apply Z.pow_le_mono_r; lia).
    lia.
Qed.

(** Shifting out [n] zero bits is exact. *)
Lemma shr_zeros (n : positive) :
  forall q : positive,
  iter_pos shr_1 n (Build_shr_record (Z.pos (Pos.iter xO q n)) false false)
  = Build_shr_record (Z.pos q) false false.
Proof.
  induction n as [n IH | n IH |]; intros q.
  - cbn [iter_pos Pos.iter]. cbn [shr_1 orb].
    rewrite IH, IH. reflexivity.
  - cbn [iter_pos Pos.iter].
    rewrite IH, IH. reflexivity.
  - reflexivity.
Qed.

Section Zeros.
Variables prec emax : Z.

(** A mantissa that ends in [n] zero bits, at an exponent [n] below its
    place, is normalised by dropping them. *)
Lemma binary_round_zeros (s : bool) (p q n : positive) (ex : Z) :
  Z.pos p = Z.pos q * 2 ^ Z.pos n ->
  fexp prec emax (Z.pos (digits2_pos q) + Z.pos n + ex) = ex + Z.pos n ->
  ex + Z.pos n <= emax - prec ->
  binary_round prec emax s p ex = S754_finite s q (ex + Z.pos n).
Proof.
  intros Hp Hfexp Hmax.
  assert (Ep : p = Pos.iter xO q n).
  { apply Pos2Z.inj. rewrite iter_xO_value. exact Hp. }
  subst p.
  unfold binary_round. rewrite digits_iter_xO, Pos2Z.inj_add. norm_Z.
  rewrite Hfexp. unfold shl_align. norm_Z.
  replace (ex + Z.pos n - ex) with (Z.pos n) by lia.
  unfold binary_round_aux, shr_fexp. simpl Zdigits2.
  rewrite digits_iter_xO, Pos2Z.inj_add. norm_Z. rewrite Hfexp.
  replace (ex + Z.pos n - ex) with (Z.pos n) by lia.
  cbn [shr shr_record_of_loc]. rewrite shr_zeros.
  cbn [shr_m loc_of_shr_record round_nearest_even shr_record_of_loc Zdigits2].
  norm_Z.
  replace (Z.pos (digits2_pos q) + (ex + Z.pos n))
    with (Z.pos (digits2_pos q) + Z.pos n + ex) by lia.
  rewrite Hfexp, Z.sub_diag. cbn [shr shr_m].
  destruct (Z.leb_spec (ex + Z.pos n) (emax - prec)) as [_ | Hgt];
    [reflexivity | lia].
Qed.
End Zeros.

(** ** Formats *)

Lemma format_constants (T : FloatType) :
  2 <= prec T
  /\ 3 <= emax T
  /\ emin (prec T) (emax T) < - prec T
  /\ exists hm,
       Z.pos hm = 2 ^ (prec T - 1)
       /\ half T = S754_finite false hm (- prec T)
       /\ one T = S754_finite false hm (1 - prec T).
Proof.
  destruct T; (split; [| split; [| split]]);
    try (simpl; lia); try reflexivity;
    eexists; repeat split; reflexivity.
Qed.

Lemma canonical_exponent (T : FloatType) (m : positive) (e : Z) :
  valid_binary (prec T) (emax T) (S754_finite false m e) = true ->
  e = Z.max (Z.pos (digits2_pos m) + e - prec T) (emin (prec T) (emax T))
  /\ e <= emax T - prec T.
Proof.
  unfold valid_binary, bounded, canonical_mantissa, fexp. norm_Z.
  intros H. apply andb_true_iff in H. destruct H as [Hc He].
  apply Z.eqb_eq in Hc. apply Z.leb_le in He. split; [symmetry; exact Hc | exact He].
Qed.

Section RoundNonNegative.
Variable T : FloatType.
Variable m : positive.
Variable e : Z.
Hypothesis Hvalid :
  valid_binary (prec T) (emax T) (S754_finite false m e) = true.
Hypothesis Hsmall : magnitude m e + 1 < 2 ^ (prec T - 1).

Lemma small_exponent_negative : e < 0.
Proof.
  destruct (format_constants T) as (Hp2 & He3 & Hemin & _).
  destruct (canonical_exponent T m e Hvalid) as [Hc _].
  destruct (digits_bounds m) as [Dlo _].
  destruct (Z.lt_ge_cases e 0) as [Hneg | Hge]; [exact Hneg | exfalso].
  unfold emin in *. norm_Z.
  assert (Hd : Z.pos (digits2_pos m) = prec T) by lia.
  rewrite Hd in Dlo.
  assert (Hmag : Z.pos m <= magnitude m e).
  { unfold magnitude. destruct (Z.leb_spec 0 e); [| lia].
    assert (0 < 2 ^ e) by (apply Z.pow_pos_nonneg; lia). nia. }
  lia.
Qed.

Lemma magnitude_div : magnitude m e = Z.pos m / 2 ^ (- e).
Proof.
  pose proof small_exponent_negative as He.
  unfold magnitude. destruct (Z.leb_spec 0 e); [lia | reflexivity].
Qed.

Lemma integer_part_division :
  0 < 2 ^ (- e)
  /\ Z.pos m = magnitude m e * 2 ^ (- e) + Z.pos m mod 2 ^ (- e)
  /\ 0 <= Z.pos m mod 2 ^ (- e) < 2 ^ (- e).
Proof.
  pose proof small_exponent_negative as He.
  assert (Hpow : 0 < 2 ^ (- e)) by (apply Z.pow_pos_nonneg; lia).
  rewrite magnitude_div. split; [exact Hpow | split].
  - rewrite Z.mul_comm. apply Z.div_mod. lia.
  - apply Z.mod_pos_bound. exact Hpow.
Qed.

(** When the integer part is not zero the value is normal and the integer
    part has [prec + e] digits. *)
Lemma normal_when_integer_part :
  0 < magnitude m e ->
  Z.pos (digits2_pos m) = prec T
  /\ 1 - prec T <= e
  /\ emin (prec T) (emax T) <= e.
Proof.
  intros Ht.
  destruct (format_constants T) as (Hp2 & He3 & Hemin & _).
  destruct (canonical_exponent T m e Hvalid) as [Hc _].
  destruct (digits_bounds m) as [_ Dhi].
  destruct integer_part_division as (Hpow & Hdiv & Hr).
  pose proof small_exponent_negative as He.
  assert (Hge : 2 ^ (- e) <= Z.pos m) by nia.
  assert (Hdk : - e < Z.pos (digits2_pos m)).
  { destruct (Z.lt_ge_cases (- e) (Z.pos (digits2_pos m))) as [|Hle]; [assumption |].
    assert (2 ^ Z.pos (digits2_pos m) <= 2 ^ (- e))
      by (apply Z.pow_le_mono_r; lia).
    lia. }
  unfold emin in *. norm_Z. lia.
Qed.

Lemma integer_part_digits (tp : positive) :
  Z.pos tp = magnitude m e ->
  Z.pos (digits2_pos tp) = prec T + e.
Proof.
  intros Htp.
  destruct (normal_when_integer_part ltac:(lia)) as (Hd & He1 & _).
  destruct (digits_bounds m) as [Dlo Dhi]. rewrite Hd in Dlo, Dhi.
  destruct integer_part_division as (Hpow & _ & _).
  pose proof small_exponent_negative as He.
  apply digits_unique. rewrite Htp, magnitude_div. split.
  - apply Z.div_le_lower_bound; [exact Hpow |].
    rewrite <- Z.pow_add_r by lia.
    replace (- e + (prec T + e - 1)) with (prec T - 1) by lia. exact Dlo.
  - apply Z.div_lt_upper_bound; [exact Hpow |].
    rewrite <- Z.pow_add_r by lia.
    replace (- e + (prec T + e)) with (prec T) by lia. exact Dhi.
Qed.

(** The cast of the integer part, aligned with the value. *)
Lemma of_Z_integer_part :
  0 < magnitude m e ->
  exists mz,
    of_Z T (magnitude m e) = S754_finite false mz e
    /\ Z.pos mz = magnitude m e * 2 ^ (- e).
Proof.
  intros Ht.
  destruct (format_facts T) as (Hprec & Hemax & Hemin).
  destruct (normal_when_integer_part Ht) as (Hd & He1 & Hemin').
  pose proof small_exponent_negative as He.
  assert (Hex : exists tp, Z.pos tp = magnitude m e)
    by (exists (Z.to_pos (magnitude m e)); apply Z2Pos.id; exact Ht).
  destruct Hex as (tp & Htp).
  pose proof (integer_part_digits tp Htp) as Hdt.
  rewrite <- Htp. unfold of_Z, binary_normalize.
  destruct (binary_round_exact (prec T) (emax T) false tp 0)
    as (mz & Heq & Hmz); [lia | lia | lia |].
  assert (Hfexp : fexp (prec T) (emax T) (Z.pos (digits2_pos tp) + 0) = e).
  { unfold fexp. norm_Z. lia. }
  rewrite Hfexp in Heq, Hmz.
  exists mz. split; [exact Heq |]. rewrite Hmz. f_equal.
Qed.

(** The remainder [value - truncated] is computed exactly. *)
Lemma remainder_form :
  let r := Z.pos m mod 2 ^ (- e) in
  let R := fsub T (S754_finite false m e) (of_Z T (magnitude m e)) in
  (r = 0 -> R = S754_zero false)
  /\ (forall rp, Z.pos rp = r ->
        exists mr,
          R = S754_finite false mr
                (fexp (prec T) (emax T) (Z.pos (digits2_pos rp) + e))
          /\ Z.pos mr
             = r * 2 ^ (e - fexp (prec T) (emax T) (Z.pos (digits2_pos rp) + e))).
Proof.
  intros r R.
  destruct (format_constants T) as (Hp2 & He3 & Hemin & _).
  destruct (canonical_exponent T m e Hvalid) as [Hc Hmax].
  destruct integer_part_division as (Hpow & Hdiv & Hr). fold r in Hdiv, Hr.
  pose proof small_exponent_negative as He.
  pose proof (magnitude_nonneg m e) as Hnn.
  destruct (Z.eq_dec (magnitude m e) 0) as [Hz | Hz].
  - (* no integer part: the remainder is the value *)
    assert (HR : R = S754_finite false m e)
      by (unfold R; rewrite Hz; reflexivity).
    assert (Hrm : r = Z.pos m) by lia.
    split; [lia |].
    intros rp Hrp. assert (rp = m) by (apply Pos2Z.inj; lia). subst rp.
    exists m. unfold fexp. norm_Z. rewrite <- Hc, Z.sub_diag.
    split; [exact HR | lia].
  - destruct (of_Z_integer_part ltac:(lia)) as (mz & Heq & Hmz).
    destruct (normal_when_integer_part ltac:(lia)) as (Hd & He1 & Hemin').
    assert (HR : R = binary_normalize (prec T) (emax T) r e false).
    { unfold R. rewrite Heq. unfold fsub, SFsub. norm_Z.
      rewrite Z.min_id.
      destruct (shl_align_spec m e e (Z.le_refl e)) as (m1 & -> & V1 & _).
      destruct (shl_align_spec mz e e (Z.le_refl e)) as (m2 & -> & V2 & _).
      cbn [fst]. unfold cond_Zopp. f_equal.
      rewrite V1, V2, Z.sub_diag, Hmz. simpl (2 ^ 0). lia. }
    split.
    + intros Hr0. rewrite HR, Hr0. reflexivity.
    + intros rp Hrp. rewrite HR, <- Hrp. unfold binary_normalize.
      assert (Hdr : Z.pos (digits2_pos rp) <= prec T).
      { apply digits_le_prec.
        assert (2 ^ (- e) <= 2 ^ prec T) by (apply Z.pow_le_mono_r; lia).
        lia. }
      destruct (binary_round_exact (prec T) (emax T) false rp e Hdr)
        as (mr & Hmr & Vmr); [lia | lia |].
      exists mr. split; assumption.
Qed.
End RoundNonNegative.

Lemma pow2_succ (k : Z) : 0 < k -> 2 ^ k = 2 * 2 ^ (k - 1).
Proof.
  intros Hk. rewrite <- Z.pow_succ_r by lia. f_equal. lia.
Qed.

(** The comparisons of an exactly normalised remainder [r * 2 ^ e] with
    0.5 are the comparisons of [2 * r] with [2 ^ (- e)]. *)
Lemma compare_with_half (T : FloatType) (e : Z) (rp mr : positive) :
  e < 0 ->
  Z.pos rp < 2 ^ (- e) ->
  Z.pos mr
  = Z.pos rp * 2 ^ (e - fexp (prec T) (emax T) (Z.pos (digits2_pos rp) + e)) ->
  let R := S754_finite false mr
             (fexp (prec T) (emax T) (Z.pos (digits2_pos rp) + e)) in
  SFltb (half T) R = (2 ^ (- e) <? 2 * Z.pos rp)
  /\ SFeqb R (half T) = (2 * Z.pos rp =? 2 ^ (- e)).
Proof.
  intros He Hr Hmr R.
  destruct (format_constants T) as (Hp2 & He3 & Hemin & hm & Hhm & Hhalf & _).
  destruct (digits_bounds rp) as [Dlo Dhi].
  set (d := Z.pos (digits2_pos rp)) in *.
  assert (Hd : d <= - e).
  { destruct (Z.le_gt_cases d (- e)) as [| Hgt]; [assumption |].
    assert (2 ^ (- e) <= 2 ^ (d - 1)) by (apply Z.pow_le_mono_r; lia).
    lia. }
  assert (Hd1 : 1 <= d) by (unfold d; lia).
  pose proof (pow2_succ (- e) ltac:(lia)) as Hk.
  unfold R. rewrite Hhalf. unfold SFltb, SFeqb, SFcompare. norm_Z.
  set (er := fexp (prec T) (emax T) (d + e)) in *.
  assert (Her : er = Z.max (d + e - prec T) (emin (prec T) (emax T)))
    by (unfold er, fexp; norm_Z; reflexivity).
  destruct (Z.eq_dec d (- e)) as [Hdk | Hdk].
  - (* the remainder has as many digits as the fraction: same exponent *)
    assert (Eer : er = - prec T) by lia.
    rewrite Eer, Z.compare_refl.
    assert (Hexp : 0 <= e + prec T).
    { destruct (Z.lt_ge_cases (e + prec T) 0) as [Hneg |]; [| assumption].
      rewrite Eer in Hmr.
      replace (e - - prec T) with (e + prec T) in Hmr by lia.
      rewrite Z.pow_neg_r in Hmr by lia. lia. }
    assert (Vmr : Z.pos mr = Z.pos rp * 2 ^ (e + prec T)).
    { rewrite Hmr, Eer. f_equal. f_equal. lia. }
    assert (Vhm : Z.pos hm = 2 ^ (- e - 1) * 2 ^ (e + prec T)).
    { rewrite Hhm, <- Z.pow_add_r by lia. f_equal. lia. }
    assert (Hpow : 0 < 2 ^ (e + prec T)) by (apply Z.pow_pos_nonneg; lia).
    change (Pos.compare_cont Eq hm mr) with (Pos.compare hm mr).
    change (Pos.compare_cont Eq mr hm) with (Pos.compare mr hm).
    rewrite (Pos.compare_antisym hm mr).
    destruct (Pos.compare_spec hm mr) as [Heq | Hlt | Hgt]; cbn [CompOpp].
    + subst mr. split.
      * symmetry. apply Z.ltb_ge. nia.
      * symmetry. apply Z.eqb_eq. nia.
    + apply Pos2Z.pos_lt_pos in Hlt. split.
      * symmetry. apply Z.ltb_lt. nia.
      * symmetry. apply Z.eqb_neq. nia.
    + apply Pos2Z.pos_lt_pos in Hgt. split.
      * symmetry. apply Z.ltb_ge. nia.
      * symmetry. apply Z.eqb_neq. nia.
  - (* fewer digits: a smaller exponent, and less than a half *)
    assert (Eer : er < - prec T) by lia.
    assert (Hlt : 2 * Z.pos rp < 2 ^ (- e)).
    { assert (2 ^ d <= 2 ^ (- e - 1)) by (apply Z.pow_le_mono_r; lia). lia. }
    rewrite (proj2 (Z.compare_gt_iff (- prec T) er)) by lia.
    rewrite (proj2 (Z.compare_lt_iff er (- prec T))) by lia.
    split.
    + symmetry. apply Z.ltb_ge. lia.
    + symmetry. apply Z.eqb_neq. lia.
Qed.

Lemma half_plus_one (T : FloatType) :
  static_cast_int int (fadd T (half T) (of_Z T 1)) = Some 1.
Proof. destruct T; reflexivity. Qed.

Section Tie.
Variable T : FloatType.
Variable m : positive.
Variable e : Z.
Hypothesis Hvalid :
  valid_binary (prec T) (emax T) (S754_finite false m e) = true.
Hypothesis Hsmall : magnitude m e + 1 < 2 ^ (prec T - 1).
Hypothesis Htie : 2 * (Z.pos m mod 2 ^ (- e)) = 2 ^ (- e).

(** With no integer part, a tie is the value 0.5 itself. *)
Lemma tie_without_integer_part :
  magnitude m e = 0 -> S754_finite false m e = half T.
Proof.
  intros Hz.
  destruct (format_constants T) as (Hp2 & He3 & Hemin & hm & Hhm & Hhalf & _).
  destruct (canonical_exponent T m e Hvalid) as [Hc _].
  destruct (integer_part_division T m e Hvalid Hsmall) as (Hpow & Hdiv & Hr).
  pose proof (small_exponent_negative T m e Hvalid Hsmall) as He.
  pose proof (pow2_succ (- e) ltac:(lia)) as Hk.
  assert (Hm : Z.pos m = 2 ^ (- e - 1)) by lia.
  assert (Hd : Z.pos (digits2_pos m) = - e).
  { apply digits_unique. rewrite Hm. lia. }
  assert (Ee : e = - prec T) by lia.
  rewrite Hhalf, Ee. f_equal. apply Pos2Z.inj. rewrite Hm, Hhm.
  f_equal. lia.
Qed.

Lemma tie_next :
  magnitude m e + 1 <= numeric_limits_max int ->
  static_cast_int int (fadd T (S754_finite false m e) (of_Z T 1))
  = Some (magnitude m e + 1).
Proof.
  intros Hint.
  pose proof (magnitude_nonneg m e) as Hnn.
  destruct (Z.eq_dec (magnitude m e) 0) as [Hz | Hz].
  { rewrite (tie_without_integer_part Hz), Hz. apply half_plus_one. }
  destruct (format_constants T) as (Hp2 & He3 & Hemin & hm & Hhm & _ & Hone).
  destruct (canonical_exponent T m e Hvalid) as [Hc Hmax].
  destruct (integer_part_division T m e Hvalid Hsmall) as (Hpow & Hdiv & Hr).
  pose proof (small_exponent_negative T m e Hvalid Hsmall) as He.
  destruct (normal_when_integer_part T m e Hvalid Hsmall ltac:(lia))
    as (Hd & He1 & Hemin').
  pose proof (pow2_succ (- e) ltac:(lia)) as Hk.
  pose proof Hsmall as Hsmall'.
  set (t := magnitude m e) in Hsmall', Hnn, Hz, Hdiv, Hint |- *.
  set (N := 2 * t + 3).
  (* the sum, as an integer at exponent [1 - prec] *)
  change (of_Z T 1) with (one T). rewrite Hone.
  unfold fadd, SFadd. norm_Z.
  replace (Z.min e (1 - prec T)) with (1 - prec T) by lia.
  destruct (shl_align_spec m e (1 - prec T) He1) as (m1 & -> & V1 & _).
  destruct (shl_align_spec hm (1 - prec T) (1 - prec T) (Z.le_refl _))
    as (m2 & -> & V2 & _).
  cbn [fst cond_Zopp]. 
  change (Z.pos m1 + Z.pos m2) with (Z.pos (m1 + m2)).
  cbn [binary_normalize].
  assert (Hp2' : 2 ^ (prec T - 1) = 2 * 2 ^ (prec T - 2)).
  { rewrite <- Z.pow_succ_r by lia. f_equal. lia. }
  assert (Hp2pos : 0 < 2 ^ (prec T - 2)) by (apply Z.pow_pos_nonneg; lia).
  assert (Vsum : Z.pos (m1 + m2) = N * 2 ^ (prec T - 2)).
  { rewrite Pos2Z.inj_add, V1, V2, Z.sub_diag, Hhm. simpl (2 ^ 0).
    rewrite Hdiv.
    assert (Ha : 2 ^ (- e) * 2 ^ (e - (1 - prec T)) = 2 ^ (prec T - 1)).
    { rewrite <- Z.pow_add_r by lia. f_equal. lia. }
    assert (Hb : 2 ^ (- e - 1) * 2 ^ (e - (1 - prec T)) = 2 ^ (prec T - 2)).
    { rewrite <- Z.pow_add_r by lia. f_equal. lia. }
    assert (Hrem : Z.pos m mod 2 ^ (- e) = 2 ^ (- e - 1)) by lia.
    rewrite Hrem. unfold N. nia. }
  (* the digits of [N] *)
  assert (HN : 5 <= N < 2 ^ prec T).
  { rewrite (pow2_succ (prec T)) by lia. unfold N. lia. }
  assert (Hex : exists np, Z.pos np = N)
    by (exists (Z.to_pos N); apply Z2Pos.id; lia).
  destruct Hex as (np & Hnp).
  destruct (digits_bounds np) as [Dlo Dhi].
  set (dN := Z.pos (digits2_pos np)) in *.
  assert (HdN : 3 <= dN <= prec T).
  { split.
    - destruct (Z.le_gt_cases 3 dN) as [| Hlt]; [assumption |].
      assert (2 ^ dN <= 2 ^ 2) by (apply Z.pow_le_mono_r; lia).
      simpl (2 ^ 2) in *. lia.
    - rewrite <- Hnp in HN. apply digits_le_prec. lia. }
  assert (Hq : 0 < N * 2 ^ (prec T - dN)).
  { apply Z.mul_pos_pos; [lia | apply Z.pow_pos_nonneg; lia]. }
  assert (Hex : exists q, Z.pos q = N * 2 ^ (prec T - dN))
    by (exists (Z.to_pos (N * 2 ^ (prec T - dN))); apply Z2Pos.id; exact Hq).
  destruct Hex as (q & Vq).
  assert (Hex : exists n, Z.pos n = dN - 2)
    by (exists (Z.to_pos (dN - 2)); apply Z2Pos.id; lia).
  destruct Hex as (n & Vn).
  assert (Hdq : Z.pos (digits2_pos q) = prec T).
  { apply digits_unique. rewrite Vq, <- Hnp. split.
    - replace (prec T - 1) with (dN - 1 + (prec T - dN)) by lia.
      rewrite Z.pow_add_r by lia.
      apply Z.mul_le_mono_nonneg_r; [apply Z.pow_nonneg; lia | exact Dlo].
    - replace (prec T) with (dN + (prec T - dN)) at 2 by lia.
      rewrite Z.pow_add_r by lia.
      apply Z.mul_lt_mono_pos_r; [apply Z.pow_pos_nonneg; lia | exact Dhi]. }
  rewrite (binary_round_zeros (prec T) (emax T) false (m1 + m2) q n (1 - prec T)).
  - (* the truncation of the sum *)
    unfold static_cast_int. rewrite trunc_finite. cbn [bind].
    assert (Hmag : magnitude q (1 - prec T + Z.pos n) = t + 1).
    { unfold magnitude.
      destruct (Z.leb_spec 0 (1 - prec T + Z.pos n)) as [Hge | _]; [lia |].
      rewrite Vq, Vn.
      replace (- (1 - prec T + (dN - 2))) with (1 + (prec T - dN)) by lia.
      rewrite Z.pow_add_r by lia. change (2 ^ 1) with 2.
      rewrite Z.div_mul_cancel_r
        by (first [lia | apply Z.pow_nonzero; lia]).
      unfold N. symmetry. apply Z.div_unique with (r := 1); lia. }
    rewrite Hmag.
    assert (Hin : in_range int (t + 1) = true).
    { unfold in_range. apply andb_true_iff.
      split; apply Z.leb_le;
        [change (numeric_limits_min int) with (-2147483648); lia | exact Hint]. }
    rewrite Hin. reflexivity.
  - rewrite Vsum, Vq, Vn, <- Z.mul_assoc, <- Z.pow_add_r by lia.
    f_equal. f_equal. lia.
  - rewrite Hdq, Vn. unfold fexp. norm_Z.
    unfold emin in Hemin. norm_Z. unfold emin. norm_Z. lia.
  - rewrite Vn. destruct (format_facts T) as (_ & Hlt & _). lia.
Qed.
End Tie.

Lemma tie_bit (t : Z) :
  0 <= t ->
  t + (if Z.rem (t + 1) 2 =? 0 then 1 else 0)
  = if Z.even t then t else t + 1.
Proof.
  intros Ht. rewrite Z.rem_mod_nonneg by lia.
  destruct (Z.even t) eqn:Hev.
  - apply Z.even_spec in Hev. destruct Hev as [k ->].
    replace (2 * k + 1) with (1 + k * 2) by lia.
    rewrite Z.mod_add by lia. change (1 mod 2 =? 0) with false. cbv iota. lia.
  - assert (Hodd : Z.odd t = true) by (rewrite <- Z.negb_even, Hev; reflexivity).
    apply Z.odd_spec in Hodd. destruct Hodd as [k ->].
    replace (2 * k + 1 + 1) with (0 + (k + 1) * 2) by lia.
    rewrite Z.mod_add by lia. change (0 mod 2 =? 0) with true. cbv iota. lia.
Qed.

Lemma positive_not_below_zero (T : FloatType) (m : positive) (e : Z) :
  SFltb (S754_finite false m e) (zero T) = false.
Proof. reflexivity. Qed.

Lemma int_checked_small (z : Z) :
  0 <= z <= numeric_limits_max int -> int_checked z = Some z.
Proof.
  intros Hz. unfold int_checked, in_range.
  change (numeric_limits_min int) with (-2147483648).
  destruct (Z.leb_spec (-2147483648) z); [| lia].
  destruct (Z.leb_spec z (numeric_limits_max int)); [reflexivity | lia].
Qed.

(** X14: on a non-negative value [round_float] rounds to the nearest
    integer, ties to even.  This holds for every valid [float] or
    [double] value whose integer part [t] satisfies
    [t + 1 < 2 ^ (prec - 1)] and [t + 1 <= INT_MAX]. *)
Theorem round_float_non_negative_half_even (T : FloatType) (m : positive)
    (e : Z) :
  valid_binary (prec T) (emax T) (S754_finite false m e) = true ->
  magnitude m e + 1 < 2 ^ (prec T - 1) ->
  magnitude m e + 1 <= numeric_limits_max int ->
  round_float T (S754_finite false m e)
  = Some (of_Z T (round_half_even m e)).
Proof.
  intros Hvalid Hsmall Hint.
  pose proof (small_exponent_negative T m e Hvalid Hsmall) as He.
  pose proof (magnitude_nonneg m e) as Hnn.
  destruct (integer_part_division T m e Hvalid Hsmall) as (Hpow & Hdiv & Hr).
  destruct (remainder_form T m e Hvalid Hsmall) as [Hzero Hpos].
  unfold round_half_even.
  destruct (Z.leb_spec 0 e) as [Hge | _]; [lia |]. cbv zeta.
  unfold round_float. unfold static_cast_int at 1.
  rewrite trunc_finite. cbn [bind].
  assert (Hin : in_range int (magnitude m e) = true).
  { unfold in_range. change (numeric_limits_min int) with (-2147483648).
    apply andb_true_iff. split; apply Z.leb_le; lia. }
  rewrite Hin. cbn [bind]. cbv zeta.
  rewrite positive_not_below_zero.
  destruct (Z.eq_dec (Z.pos m mod 2 ^ (- e)) 0) as [Hr0 | Hr0].
  - (* no fraction *)
    rewrite (Hzero Hr0).
    destruct (below_half T (S754_zero false) (or_introl eq_refl)) as [-> ->].
    cbn [bind]. rewrite Hr0.
    destruct (Z.ltb_spec (2 ^ (- e)) (2 * 0)) as [Hlt | _]; [lia |].
    destruct (Z.eqb_spec (2 * 0) (2 ^ (- e))) as [Heq | _]; [lia |].
    rewrite Z.add_0_r, int_checked_small by lia. reflexivity.
  - assert (Hex : exists rp, Z.pos rp = Z.pos m mod 2 ^ (- e))
      by (exists (Z.to_pos (Z.pos m mod 2 ^ (- e))); apply Z2Pos.id; lia).
    destruct Hex as (rp & Hrp).
    destruct (Hpos rp Hrp) as (mr & -> & Vmr).
    rewrite <- Hrp in Vmr.
    destruct (compare_with_half T e rp mr He ltac:(lia) Vmr) as [-> ->].
    rewrite Hrp.
    destruct (Z.ltb_spec (2 ^ (- e)) (2 * (Z.pos m mod 2 ^ (- e)))) as [Hlt | Hge].
    + cbn [bind]. rewrite int_checked_small by lia. reflexivity.
    + destruct (Z.eqb_spec (2 * (Z.pos m mod 2 ^ (- e))) (2 ^ (- e)))
        as [Heq | Hne].
      * rewrite (tie_next T m e Hvalid Hsmall Heq Hint). cbn [bind].
        rewrite tie_bit by lia.
        rewrite int_checked_small; [reflexivity |].
        destruct (Z.even (magnitude m e)); lia.
      * cbn [bind]. rewrite Z.add_0_r, int_checked_small by lia. reflexivity.
Qed.

Lemma round_float_non_negative_half_even_witness :
  round_float float (S754_finite false 10485760 (-22))
  = Some (of_Z float (round_half_even 10485760 (-22))).
Proof.
  apply (round_float_non_negative_half_even float 10485760 (-22));
    vm_compute; first [reflexivity | discriminate].
Defined.

(** ** Clamping before converting *)

Lemma below_minus_one_not_above_one (T : FloatType) (value : spec_float) :
  SFltb value (minus_one T) = true -> SFltb (one T) value = false.
Proof.
  destruct T, value as [s | s | | s m e]; try discriminate;
    destruct s; try discriminate; reflexivity.
Qed.

(** X15: clamping first makes the conversion saturate.  In the five
    instantiations with an exact scale factor, every value above 1.0
    (+infinity included) is converted after [clip_float] to the maximum of
    the integer type, and every value below -1.0 to its minimum. *)
Theorem clipped_conversion_saturates (F : FloatType) (I : IntType)
    (value : spec_float) :
  In (F, I) exact_instantiations ->
  (SFltb (one F) value = true ->
   float_to_int F I (clip_float F value) = Some (numeric_limits_max I))
  /\ (SFltb value (minus_one F) = true ->
      float_to_int F I (clip_float F value) = Some (numeric_limits_min I)).
Proof.
  intros Hin.
  pose proof full_range_where_exact as Hall.
  rewrite Forall_forall in Hall. specialize (Hall (F, I) Hin).
  destruct Hall as [Hmax Hmin].
  unfold clip_float. split.
  - intros ->. exact Hmax.
  - intros Hlo. rewrite (below_minus_one_not_above_one F value Hlo), Hlo.
    exact Hmin.
Qed.

Lemma clipped_conversion_saturates_witness :
  float_to_int double int16_t (clip_float double (S754_infinity false))
  = Some (numeric_limits_max int16_t)
  /\ float_to_int double int16_t (clip_float double (literal double (-3) 0))
     = Some (numeric_limits_min int16_t).
Proof.
  split.
  - apply (clipped_conversion_saturates double int16_t (S754_infinity false));
      [simpl; auto 6 | reflexivity].
  - apply (clipped_conversion_saturates double int16_t (literal double (-3) 0));
      [simpl; auto 6 | reflexivity].
Defined.

(** ** Truncation of the negative half of a signed target *)

(** X16: for a signed target a negative input is converted by truncating
    the scaled product toward zero, never by rounding it: when the product
    [-value * min] is the negative finite [x], with a truncation [t] that
    fits [int] and [I] and is above [- 2 ^ prec], the result is [t]. *)
Theorem float_to_int_signed_negative_truncates (F : FloatType) (I : IntType)
    (m : positive) (e : Z) (mx : positive) (ex : Z) (t : Z) :
  is_unsigned I = false ->
  fmul F (S754_finite false m e) (of_Z F (numeric_limits_min I))
  = S754_finite true mx ex ->
  trunc (S754_finite true mx ex) = Some t ->
  in_range int t = true ->
  in_range I t = true ->
  - 2 ^ prec F < t ->
  float_to_int F I (S754_finite true m e) = Some t.
Proof.
  intros Hs Hx Ht Hint HI Hprec.
  rewrite float_to_int_signed_negative by exact Hs.
  rewrite Hx, (round_float_negative F mx ex t Ht Hint Hprec). cbn [bind].
  unfold static_cast_int.
  assert (Hle : t <= 0).
  { rewrite trunc_finite in Ht. injection Ht as <-.
    pose proof (magnitude_nonneg mx ex). lia. }
  rewrite trunc_of_Z by lia. cbn [bind]. rewrite HI. reflexivity.
Qed.

Lemma float_to_int_signed_negative_truncates_witness :
  float_to_int double int16_t (S754_finite true 7 (-17)) = Some (-1).
Proof.
  apply (float_to_int_signed_negative_truncates double int16_t 7 (-17)
           7881299347898368 (-52) (-1)); vm_compute; reflexivity.
Defined.

(** ** The code below the zero point *)

Lemma code_below_zero_is_one_widths (F : FloatType) :
  forallb (fun w => code_below_zero_is_one (MkIntType true w) F) widths = true.
Proof. destruct F; vm_compute; reflexivity. Qed.

(** X17: for every unsigned type of 2 to 64 bits [int_to_float] sends the
    code just below the zero point to a value equal to 1.0, the largest
    output, and the zero point itself to 0.0: decoding is not monotonic
    across the zero point. *)
Theorem code_below_zero_point_is_one (I : IntType) (F : FloatType) :
  is_unsigned I = true ->
  2 <= width I <= 64 ->
  SFeqb (int_to_float I F (get_zero I - 1)) (one F) = true
  /\ int_to_float I F (get_zero I) = zero F
  /\ SFltb (int_to_float I F (get_zero I))
           (int_to_float I F (get_zero I - 1)) = true.
Proof.
  destruct I as [u w]. simpl. intros -> Hw.
  pose proof (code_below_zero_is_one_widths F) as Hall.
  rewrite forallb_forall in Hall.
  specialize (Hall w (in_widths w Hw)).
  unfold code_below_zero_is_one in Hall.
  unfold SFeqb, SFltb.
  destruct (SFcompare (int_to_float (MkIntType true w) F
                         (get_zero (MkIntType true w) - 1)) (one F))
    as [[| |] |] eqn:Hcmp; try discriminate.
  destruct (int_to_float (MkIntType true w) F (get_zero (MkIntType true w)))
    as [[|] | | |] eqn:Hz; try discriminate.
  split; [reflexivity | split; [reflexivity |]].
  destruct (int_to_float (MkIntType true w) F (get_zero (MkIntType true w) - 1))
    as [s | s | | s m e]; destruct F; try discriminate;
    destruct s; try discriminate; reflexivity.
Qed.

Lemma code_below_zero_point_is_one_witness :
  SFeqb (int_to_float uint8_t float (get_zero uint8_t - 1)) (one float) = true
  /\ int_to_float uint8_t float (get_zero uint8_t) = zero float
  /\ SFltb (int_to_float uint8_t float (get_zero uint8_t))
           (int_to_float uint8_t float (get_zero uint8_t - 1)) = true.
Proof.
  apply (code_below_zero_point_is_one uint8_t float); [reflexivity | simpl; lia].
Defined.

(** ** The clamper through a pointer *)

(** X18: through a pointer [clip_float] replaces the cell it points to by its
    clamped value and leaves every other cell as it is, and a second call
    on the same cell changes nothing. *)
Theorem clip_float_pointer_cell (T : FloatType) (before : list spec_float)
    (value : spec_float) (after : list spec_float) :
  clip_float_pointer T (before ++ value :: after) (Z.of_nat (length before))
  = Some (before ++ clip_float T value :: after)
  /\ clip_float_pointer T (before ++ clip_float T value :: after)
       (Z.of_nat (length before))
     = Some (before ++ clip_float T value :: after).
Proof.
  unfold clip_float_pointer. split.
  - rewrite subscript_app_length. cbn [bind]. apply assign_app_length.
  - rewrite subscript_app_length. cbn [bind].
    destruct (clip_float_in_bounds T value) as (_ & _ & ->).
    apply assign_app_length.
Qed.

(** ** The integer round trip on [uint8_t] *)

Lemma uint8_round_trip_only_zero_point_witness :
  int_round_trip uint8_t double 128 = Some 128 <-> 128 = get_zero uint8_t.
Proof.
  apply (uint8_round_trip_only_zero_point double 128). reflexivity.
Defined.
